(** * Journalizer: the journal entry editor (JournalEntryScreen)

    A shallow embedding of the entry editor screen: its React state, the
    handlers [addTag], [deleteTag] and [onSave], and the effect that loads an
    existing entry.  JavaScript strings are sequences of UTF-16 code units;
    the handlers run in a small monad that threads the component state and a
    trace of the observable effects (alerts, console output, navigation and
    calls to the storage module). *)

From Stdlib Require Import String Ascii.
From stdpp Require Import base numbers list.

Open Scope N_scope.

(** ** JavaScript strings *)

(** A string value is a finite sequence of 16-bit code units. *)
Definition code_unit := N.
Definition jsstring := list code_unit.

(** An ASCII literal as a JavaScript string. *)
Definition js (s : string) : jsstring :=
  List.map N_of_ascii (list_ascii_of_string s).

(** A literal in which the apostrophe stands for the quotation mark (code
    unit 34), for writing JSON texts. *)
Definition jsq (s : string) : jsstring :=
  List.map (λ c, if c =? 39 then 34 else c) (js s).

(** The code points [String.prototype.trim] strips: WhiteSpace and
    LineTerminator of ECMAScript (TAB, VT, FF, SP, NBSP, ZWNBSP, the
    Space_Separator category, LF, CR, LS, PS). *)
Definition is_whitespace (c : code_unit) : bool :=
  (c =? 9) || (c =? 10) || (c =? 11) || (c =? 12) || (c =? 13) ||
  (c =? 32) || (c =? 160) || (c =? 5760) ||
  ((8192 <=? c) && (c <=? 8202)) ||
  (c =? 8232) || (c =? 8233) || (c =? 8239) || (c =? 8287) ||
  (c =? 12288) || (c =? 65279).

Fixpoint trimStart (s : jsstring) : jsstring :=
  match s with
  | [] => []
  | c :: r => if is_whitespace c then trimStart r else s
  end.

Definition trimEnd (s : jsstring) : jsstring :=
  reverse (trimStart (reverse s)).

(** [s.trim()] *)
Definition trim (s : jsstring) : jsstring := trimEnd (trimStart s).

(** A string that is empty or has white space only. *)
Definition blank (s : jsstring) : Prop :=
  Forall (λ c, is_whitespace c = true) s.

(** [arr.includes(x)] on an array of strings. *)
Definition includes (arr : list jsstring) (x : jsstring) : bool :=
  bool_decide (x ∈ arr).

(** ** JSON.parse on the stored tag list

    The storage module keeps the tags of an entry as JSON text.  The model of
    [JSON.parse] covers the texts that denote an array of strings, the shape
    the storage contract gives to the field: optional white space, [[],
    string literals separated by commas, []].  Every other text (a syntax
    error or another JSON value) gives [None]. *)
Module JSON.

(** White space of the JSON grammar: tab, line feed, carriage return and
    space. *)
Definition is_ws (c : code_unit) : bool :=
  (c =? 9) || (c =? 10) || (c =? 13) || (c =? 32).

Fixpoint skip_ws (s : jsstring) : jsstring :=
  match s with
  | [] => []
  | c :: r => if is_ws c then skip_ws r else s
  end.

Definition hex_val (c : code_unit) : option N :=
  if (48 <=? c) && (c <=? 57) then Some (c - 48)
  else if (97 <=? c) && (c <=? 102) then Some (c - 87)
  else if (65 <=? c) && (c <=? 70) then Some (c - 55)
  else None.

(** The code unit written [\uh1h2h3h4]. *)
Definition hex4 (h1 h2 h3 h4 : code_unit) : option code_unit :=
  a ← hex_val h1; b ← hex_val h2; c ← hex_val h3; d ← hex_val h4;
  Some (((a * 16 + b) * 16 + c) * 16 + d).

(** The character after a backslash, for the two-character escapes:
    quotation mark, backslash, slash, b, f, n, r and t. *)
Definition simple_escape (e : code_unit) : option code_unit :=
  if e =? 34 then Some 34
  else if e =? 92 then Some 92
  else if e =? 47 then Some 47
  else if e =? 98 then Some 8
  else if e =? 102 then Some 12
  else if e =? 110 then Some 10
  else if e =? 114 then Some 13
  else if e =? 116 then Some 9
  else None.

(** The characters of a string literal after its opening quote: the
    decoded string and the text after the closing quote. *)
Fixpoint parse_chars (s : jsstring) : option (jsstring * jsstring) :=
  match s with
  | [] => None
  | c :: r =>
      if c =? 34 then Some ([], r)
      else if c =? 92 then
        match r with
        | [] => None
        | e :: r1 =>
            if e =? 117 then
              match r1 with
              | h1 :: h2 :: h3 :: h4 :: r2 =>
                  v ← hex4 h1 h2 h3 h4;
                  '(str, rest) ← parse_chars r2;
                  Some (v :: str, rest)
              | _ => None
              end
            else
              v ← simple_escape e;
              '(str, rest) ← parse_chars r1;
              Some (v :: str, rest)
        end
      else if c <? 32 then None
      else '(str, rest) ← parse_chars r; Some (c :: str, rest)
  end.

Definition parse_string (s : jsstring) : option (jsstring * jsstring) :=
  match s with
  | c :: r => if c =? 34 then parse_chars r else None
  | [] => None
  end.

(** The elements of a non-empty array, from the first character of an
    element up to the closing bracket.  Each element consumes at least one
    character, so the length of the text bounds the recursion. *)
Fixpoint parse_elements (fuel : nat) (s : jsstring)
  : option (list jsstring * jsstring) :=
  match fuel with
  | O => None
  | S fuel =>
      '(str, r) ← parse_string s;
      match skip_ws r with
      | c :: r1 =>
          if c =? 44 then
            '(l, rest) ← parse_elements fuel (skip_ws r1);
            Some (str :: l, rest)
          else if c =? 93 then Some ([str], r1)
          else None
      | [] => None
      end
  end.

(** The text after the opening bracket and the white space behind it:
    the closing bracket of the empty array, or the elements. *)
Definition parse_items (r : jsstring) : option (list jsstring * jsstring) :=
  match r with
  | c :: r1 => if c =? 93 then Some ([], r1) else parse_elements (length r) r
  | [] => None
  end.

Definition parse_array (s : jsstring) : option (list jsstring * jsstring) :=
  match skip_ws s with
  | c :: r => if c =? 91 then parse_items (skip_ws r) else None
  | [] => None
  end.

(** [JSON.parse(text)] when [text] denotes an array of strings. *)
Definition parse (text : jsstring) : option (list jsstring) :=
  '(l, rest) ← parse_array text;
  match skip_ws rest with
  | [] => Some l
  | _ => None
  end.

(** *** The grammar, as a relation

    [array text l]: [text] is a JSON text for the array of strings [l].
    This follows the JSON grammar (ECMA-404) and is what [parse] is
    checked against. *)

(** One character of a string literal and the code unit it denotes. *)
Inductive char : jsstring → code_unit → Prop :=
| char_plain c :
    32 ≤ c → c ≠ 34 → c ≠ 92 → char [c] c
| char_escape e v :
    simple_escape e = Some v → char [92; e] v
| char_unicode h1 h2 h3 h4 v :
    hex4 h1 h2 h3 h4 = Some v → char [92; 117; h1; h2; h3; h4] v.

Inductive chars : jsstring → jsstring → Prop :=
| chars_nil : chars [] []
| chars_cons t c ts s :
    char t c → chars ts s → chars (t ++ ts) (c :: s).

(** A string literal: the characters between two quotation marks. *)
Inductive string_literal : jsstring → jsstring → Prop :=
| string_literal_intro body s :
    chars body s → string_literal (34 :: body ++ [34]) s.

Definition ws (w : jsstring) : Prop := Forall (λ c, is_ws c = true) w.

(** The elements of a non-empty array with the white space around them,
    up to the closing bracket (excluded). *)
Inductive elements : jsstring → list jsstring → Prop :=
| elements_last t s w :
    string_literal t s → ws w → elements (t ++ w) [s]
| elements_more t s w1 w2 ts l :
    string_literal t s → ws w1 → ws w2 → elements ts l →
    elements (t ++ w1 ++ 44 :: w2 ++ ts) (s :: l).

Inductive array : jsstring → list jsstring → Prop :=
| array_empty w0 w1 w2 :
    ws w0 → ws w1 → ws w2 →
    array (w0 ++ 91 :: w1 ++ 93 :: w2) []
| array_elements w0 w1 w2 body l :
    ws w0 → ws w1 → ws w2 → elements body l →
    array (w0 ++ 91 :: w1 ++ body ++ 93 :: w2) l.

(** *** JSON.stringify on an array of strings

    What the storage side writes for a tag list: each string quoted by
    QuoteJSONString, the elements separated by commas, no white space. *)

Definition hex_digit (n : N) : code_unit :=
  if n <? 10 then 48 + n else 87 + n.

(** The six characters of a unicode escape, with lower-case digits. *)
Definition unicode_escape (c : code_unit) : jsstring :=
  [92; 117; hex_digit ((c / 4096) `mod` 16); hex_digit ((c / 256) `mod` 16);
   hex_digit ((c / 16) `mod` 16); hex_digit (c `mod` 16)].

Definition is_high_surrogate (c : code_unit) : bool :=
  (55296 <=? c) && (c <=? 56319).
Definition is_low_surrogate (c : code_unit) : bool :=
  (56320 <=? c) && (c <=? 57343).

(** A code unit that is not part of a surrogate pair. *)
Definition quote_unit (c : code_unit) : jsstring :=
  if c =? 8 then [92; 98]
  else if c =? 9 then [92; 116]
  else if c =? 10 then [92; 110]
  else if c =? 12 then [92; 102]
  else if c =? 13 then [92; 114]
  else if c =? 34 then [92; 34]
  else if c =? 92 then [92; 92]
  else if (c <? 32) || is_high_surrogate c || is_low_surrogate c
       then unicode_escape c
  else [c].

(** A surrogate pair is copied; a lone surrogate is escaped. *)
Fixpoint quote_chars (s : jsstring) : jsstring :=
  match s with
  | [] => []
  | c :: r =>
      if is_high_surrogate c then
        match r with
        | d :: r1 =>
            if is_low_surrogate d then c :: d :: quote_chars r1
            else quote_unit c ++ quote_chars r
        | [] => quote_unit c
        end
      else quote_unit c ++ quote_chars r
  end.

Definition quote (s : jsstring) : jsstring := 34 :: quote_chars s ++ [34].

Fixpoint join_elements (l : list jsstring) : jsstring :=
  match l with
  | [] => []
  | [s] => quote s
  | s :: l1 => quote s ++ 44 :: join_elements l1
  end.

Definition stringify (l : list jsstring) : jsstring :=
  91 :: join_elements l ++ [93].

End JSON.

(** ** Values of the screen *)

(** The value of [route.params?.id ?? null]: [null], or the identifier the
    caller put in the route parameters (a row number or a string). *)
Inductive JsValue :=
| Null
| Number (n : Z)
| Str (s : jsstring).

(** The truth value a condition gives to a value: [null], [0] and the empty
    string are falsy. *)
Definition ToBoolean (v : JsValue) : bool :=
  match v with
  | Null => false
  | Number n => bool_decide (n ≠ 0%Z)
  | Str s => bool_decide (s ≠ [])
  end.

(** A [Date] object: a time value in milliseconds since the epoch, or the
    invalid date (time value NaN). *)
Inductive JsDate :=
| TimeValue (t : Z)
| InvalidDate.

Inductive JsError :=
| RangeError (message : jsstring)
| SyntaxError (message : jsstring)
| Rejection (reason : jsstring).

(** The record [readJournalEntry] resolves to: the date as ISO text, the
    tags as JSON text. *)
Module Entry.
Record t := make {
  date : jsstring;
  title : jsstring;
  body : jsstring;
  tags : jsstring;
}.
End Entry.

(** The object literal [onSave] passes to [updateJournalEntry] (with [id])
    and to [createJournalEntry] (without). *)
Module Arg.
Record t := make {
  id : option JsValue;
  date : jsstring;
  title : jsstring;
  body : jsstring;
  tags : list jsstring;
}.
End Arg.

(** The outcome of an awaited promise. *)
Inductive Settled (A : Type) :=
| Fulfilled (a : A)
| Rejected (e : JsError).
Arguments Fulfilled {A} a.
Arguments Rejected {A} e.

(** The state hooks of [JournalEntryScreen] and its route parameter. *)
Record Editor := {
  date : JsDate;
  title : jsstring;
  body : jsstring;
  tags : list jsstring;
  tagModalVisible : bool;
  showDatePicker : bool;
  entryId : JsValue;
  loading : bool;
  isKeyboardOpen : bool;
}.

(** The state of the first render: [useState] initial values. *)
Definition initial (now : Z) (id : JsValue) : Editor :=
  {| date := TimeValue now; title := js ""; body := js ""; tags := [];
     tagModalVisible := false; showDatePicker := false;
     entryId := id; loading := true; isKeyboardOpen := false |}.

(** What the screen renders: the activity indicator while [loading], the
    form otherwise. *)
Inductive Phase := Loading | Ready.

Definition phase (st : Editor) : Phase :=
  if loading st then Loading else Ready.

(** The effects of the screen that are visible outside it. *)
Inductive Event :=
| Alert (message : jsstring)
| ConsoleError (message : jsstring) (error : JsError)
| Navigate (screen : jsstring)
| ReadCall (id : JsValue)
| UpdateCall (entry : Arg.t)
| CreateCall (entry : Arg.t)
| UnhandledRejection (error : JsError).

(** The component state, the trace of effects so far (oldest first) and the
    calls of [loadEntry] that wait for their read to settle. *)
Record World := {
  editor : Editor;
  trace : list Event;
  suspended : list JsValue;
}.

(** The world after further effects, the component state untouched. *)
Definition log (w : World) (events : list Event) : World :=
  {| editor := editor w; trace := trace w ++ events;
     suspended := suspended w |}.

(** ** Handlers as computations

    A statement list completes normally, by [return] or by a thrown error. *)
Inductive Completion (A : Type) :=
| Normal (a : A)
| Return
| Throw (e : JsError).
Arguments Normal {A} a.
Arguments Return {A}.
Arguments Throw {A} e.

Definition M (A : Type) : Type := World → Completion A * World.

Definition ret {A} (a : A) : M A := λ w, (Normal a, w).

Definition bind {A B} (m : M A) (k : A → M B) : M B :=
  λ w, match m w with
       | (Normal a, w1) => k a w1
       | (Return, w1) => (Return, w1)
       | (Throw e, w1) => (Throw e, w1)
       end.

#[global] Instance M_ret : MRet M := @ret.
#[global] Instance M_bind : MBind M := λ A B k m, bind m k.

Definition return_ {A} : M A := λ w, (Return, w).
Definition throw {A} (e : JsError) : M A := λ w, (Throw e, w).

(** [try { body } catch (error) { handler }] *)
Definition try_catch {A} (body : M A) (handler : JsError → M A) : M A :=
  λ w, match body w with
       | (Throw e, w1) => handler e w1
       | r => r
       end.

(** [await p] *)
Definition await {A} (p : Settled A) : M A :=
  match p with
  | Fulfilled a => ret a
  | Rejected e => throw e
  end.

Definition get_state : M Editor := λ w, (Normal (editor w), w).

Definition modify (f : Editor → Editor) : M unit :=
  λ w, (Normal tt,
        {| editor := f (editor w); trace := trace w;
           suspended := suspended w |}).

Definition emit (e : Event) : M unit :=
  λ w, (Normal tt,
        {| editor := editor w; trace := trace w ++ [e];
           suspended := suspended w |}).

Definition suspend (id : JsValue) : M unit :=
  λ w, (Normal tt,
        {| editor := editor w; trace := trace w;
           suspended := suspended w ++ [id] |}).

(** A call of an async function whose promise nobody awaits: a [return]
    fulfils it, a thrown error rejects it. *)
Definition fire_and_forget (body : M unit) : M unit :=
  λ w, match body w with
       | (Throw e, w1) => emit (UnhandledRejection e) w1
       | (_, w1) => (Normal tt, w1)
       end.

(** *** State setters *)

Definition setDate (v : JsDate) : M unit :=
  modify (λ st,
    {| date := v; title := title st; body := body st; tags := tags st;
       tagModalVisible := tagModalVisible st;
       showDatePicker := showDatePicker st; entryId := entryId st;
       loading := loading st; isKeyboardOpen := isKeyboardOpen st |}).

Definition setTitle (v : jsstring) : M unit :=
  modify (λ st,
    {| date := date st; title := v; body := body st; tags := tags st;
       tagModalVisible := tagModalVisible st;
       showDatePicker := showDatePicker st; entryId := entryId st;
       loading := loading st; isKeyboardOpen := isKeyboardOpen st |}).

Definition setBody (v : jsstring) : M unit :=
  modify (λ st,
    {| date := date st; title := title st; body := v; tags := tags st;
       tagModalVisible := tagModalVisible st;
       showDatePicker := showDatePicker st; entryId := entryId st;
       loading := loading st; isKeyboardOpen := isKeyboardOpen st |}).

(** [setTags(value)] *)
Definition setTags (v : list jsstring) : M unit :=
  modify (λ st,
    {| date := date st; title := title st; body := body st; tags := v;
       tagModalVisible := tagModalVisible st;
       showDatePicker := showDatePicker st; entryId := entryId st;
       loading := loading st; isKeyboardOpen := isKeyboardOpen st |}).

(** [setTags(prevTags => ...)]: the updater receives the current tags; what
    it does besides computing the new value happens when it runs. *)
Definition setTags_updater (f : list jsstring → M (list jsstring)) : M unit :=
  st ← get_state; v ← f (tags st); setTags v.

Definition setTagModalVisible (v : bool) : M unit :=
  modify (λ st,
    {| date := date st; title := title st; body := body st; tags := tags st;
       tagModalVisible := v;
       showDatePicker := showDatePicker st; entryId := entryId st;
       loading := loading st; isKeyboardOpen := isKeyboardOpen st |}).

Definition setShowDatePicker (v : bool) : M unit :=
  modify (λ st,
    {| date := date st; title := title st; body := body st; tags := tags st;
       tagModalVisible := tagModalVisible st;
       showDatePicker := v; entryId := entryId st;
       loading := loading st; isKeyboardOpen := isKeyboardOpen st |}).

Definition setLoading (v : bool) : M unit :=
  modify (λ st,
    {| date := date st; title := title st; body := body st; tags := tags st;
       tagModalVisible := tagModalVisible st;
       showDatePicker := showDatePicker st; entryId := entryId st;
       loading := v; isKeyboardOpen := isKeyboardOpen st |}).

Definition setKeyboardOpen (v : bool) : M unit :=
  modify (λ st,
    {| date := date st; title := title st; body := body st; tags := tags st;
       tagModalVisible := tagModalVisible st;
       showDatePicker := showDatePicker st; entryId := entryId st;
       loading := loading st; isKeyboardOpen := v |}).

(** *** Platform calls *)

Definition alert (message : jsstring) : M unit := emit (Alert message).

Definition console_error (message : jsstring) (error : JsError) : M unit :=
  emit (ConsoleError message error).

Definition navigation_navigate (screen : jsstring) : M unit :=
  emit (Navigate screen).

(** [JSON.parse(text)].  The model agrees with the platform on the texts
    of arrays of strings ([JSON.array]) and on the texts that are no JSON
    ([not_json], a SyntaxError).  A JSON text of another value (a number, an
    array holding one) is returned as that value by the platform and stored
    by [loadEntry]; the tags of the model are lists of strings, so such a
    text is taken as an error here, and the properties of loading are stated
    on the texts where model and platform agree. *)
Definition JSON_parse (text : jsstring) : M (list jsstring) :=
  match JSON.parse text with
  | Some l => ret l
  | None => throw (SyntaxError (js "JSON Parse error"))
  end.

(** ** The screen *)

Section JournalEntryScreen.

(** The storage module [../services/journalDB], imported by the screen:
    what each call settles to. *)
Variable readJournalEntry : JsValue → Settled (option Entry.t).
Variable updateJournalEntry : Arg.t → Settled unit.
Variable createJournalEntry : Arg.t → Settled unit.

(** The platform's [Date]: the date a string denotes ([new Date(text)])
    and the ISO text of a time value. *)
Variable new_Date : jsstring → JsDate.
Variable ISO_text : Z → jsstring.

(** [date.toISOString()] raises a RangeError on the invalid date. *)
Definition toISOString (d : JsDate) : M jsstring :=
  match d with
  | TimeValue t => mret (ISO_text t)
  | InvalidDate => throw (RangeError (js "Invalid time value"))
  end.

Definition call_update (entry : Arg.t) : M unit :=
  emit (UpdateCall entry) ;; await (updateJournalEntry entry).

Definition call_create (entry : Arg.t) : M unit :=
  emit (CreateCall entry) ;; await (createJournalEntry entry).

(** *** Loading an existing entry (the effect on [entryId]) *)

(** [loadEntry] up to its [await]: this part runs inside the effect. *)
Definition loadEntry_start (id : JsValue) : M unit :=
  setLoading true ;;
  emit (ReadCall id) ;;
  suspend id.

(** [loadEntry] from its [await] on: this part runs when the read has
    settled. *)
Definition loadEntry_resume (id : JsValue) : M unit :=
  entry ← await (readJournalEntry id);
  match entry with
  | Some entry =>
      setDate (new_Date (Entry.date entry)) ;;
      setTitle (Entry.title entry) ;;
      setBody (Entry.body entry) ;;
      parsed ← JSON_parse (Entry.tags entry);
      setTags parsed
  | None => mret tt
  end.

Definition load_effect : M unit :=
  st ← get_state;
  (if ToBoolean (entryId st) then loadEntry_start (entryId st)
   else mret tt) ;;
  setLoading false.

(** The read of the oldest waiting [loadEntry] settles and the call goes
    on; nothing happens when no call waits. *)
Definition read_settles : M unit :=
  λ w, match suspended w with
       | [] => (Normal tt, w)
       | id :: rest =>
           fire_and_forget (loadEntry_resume id)
             {| editor := editor w; trace := trace w; suspended := rest |}
       end.

(** *** Saving *)

Definition onSave : M unit :=
  st ← get_state;
  try_catch
    ((if ToBoolean (entryId st) then
        iso ← toISOString (date st);
        call_update
          {| Arg.id := Some (entryId st); Arg.date := iso;
             Arg.title := title st; Arg.body := body st;
             Arg.tags := tags st |}
      else
        (if bool_decide (trim (body st) = js "") then
           alert (js "Please enter a journal entry") ;;
           return_
         else mret tt) ;;
        iso ← toISOString (date st);
        call_create
          {| Arg.id := None; Arg.date := iso;
             Arg.title := title st; Arg.body := body st;
             Arg.tags := tags st |}) ;;
     navigation_navigate (js "JournalScreen"))
    (λ error, console_error (js "Failed to save journal entry:") error).

(** A storage call of [onSave], as it appears in the trace, that was
    rejected with [e]. *)
Definition failed_call (ev : Event) (e : JsError) : Prop :=
  match ev with
  | UpdateCall entry => updateJournalEntry entry = Rejected e
  | CreateCall entry => createJournalEntry entry = Rejected e
  | _ => False
  end.

(** *** Tags *)

Definition addTag (tag : jsstring) : M unit :=
  (if bool_decide (trim tag ≠ js "") then
     setTags_updater (λ prevTags,
       if negb (includes prevTags tag) then
         mret (prevTags ++ [trim tag])
       else
         alert (js "Tag already exists") ;;
         mret prevTags)
   else mret tt) ;;
  setTagModalVisible false.

Definition deleteTag (tag : jsstring) : M unit :=
  setTags_updater (λ prevTags, mret (filter (λ t, t ≠ tag) prevTags)).

(** *** The date picker *)

Definition onChange_date (selectedDate : option JsDate) : M unit :=
  setShowDatePicker false ;;
  match selectedDate with
  | Some d => setDate d
  | None => mret tt
  end.

(** *** The screen as a machine *)

Inductive Action :=
| Mount
| ReadSettles
| PressSave
| AddTag (tag : jsstring)
| DeleteTag (tag : jsstring)
| ChangeTitle (text : jsstring)
| ChangeBody (text : jsstring)
| PressDate
| ChangeDate (selectedDate : option JsDate)
| PressTags
| CloseTagModal
| KeyboardDidShow
| KeyboardDidHide.

Definition handle (a : Action) : M unit :=
  match a with
  | Mount => load_effect
  | ReadSettles => read_settles
  | PressSave => fire_and_forget onSave
  | AddTag tag => addTag tag
  | DeleteTag tag => deleteTag tag
  | ChangeTitle text => setTitle text
  | ChangeBody text => setBody text
  | PressDate => setShowDatePicker true
  | ChangeDate selectedDate => onChange_date selectedDate
  | PressTags => setTagModalVisible true
  | CloseTagModal => setTagModalVisible false
  | KeyboardDidShow => setKeyboardOpen true
  | KeyboardDidHide => setKeyboardOpen false
  end.

Definition step (w : World) (a : Action) : World := (handle a w).2.

Definition run (actions : list Action) (w : World) : World :=
  foldl step w actions.

(** The actions under which the duplicate guard of [addTag] is known to
    hold: a tag typed without surrounding white space, a stored tag list
    without duplicates. *)
Definition keeps_tags_distinct (a : Action) : Prop :=
  match a with
  | AddTag tag => trim tag = tag
  | ReadSettles =>
      ∀ id entry l,
        readJournalEntry id = Fulfilled (Some entry) →
        JSON.parse (Entry.tags entry) = Some l → NoDup l
  | _ => True
  end.

End JournalEntryScreen.

(** The screen when it is opened, before its effects have run. *)
Definition opened (now : Z) (id : JsValue) : World :=
  {| editor := initial now id; trace := []; suspended := [] |}.

(** ** A storage module and a platform to run the screen on

    One stored entry, under the identifier 1; saving succeeds with
    [Sample.updateJournalEntry] and [Sample.createJournalEntry] and is
    rejected with [Sample.rejecting].  The date functions know the date of
    the stored entry and the epoch. *)
Module Sample.

Definition entry : Entry.t :=
  {| Entry.date := js "2024-05-01T10:00:00.000Z";
     Entry.title := js "Monday";
     Entry.body := js "Rain all day";
     Entry.tags := jsq "['a','b']" |}.

Definition readJournalEntry (id : JsValue) : Settled (option Entry.t) :=
  match id with
  | Number 1 => Fulfilled (Some entry)
  | _ => Fulfilled None
  end.

Definition updateJournalEntry (_ : Arg.t) : Settled unit := Fulfilled tt.
Definition createJournalEntry (_ : Arg.t) : Settled unit := Fulfilled tt.

Definition rejecting (_ : Arg.t) : Settled unit :=
  Rejected (Rejection (js "database is locked")).

Definition new_Date (text : jsstring) : JsDate :=
  if bool_decide (text = js "2024-05-01T10:00:00.000Z")
  then TimeValue 1714557600000
  else InvalidDate.

Definition ISO_text (t : Z) : jsstring :=
  if bool_decide (t = 1714557600000%Z) then js "2024-05-01T10:00:00.000Z"
  else js "1970-01-01T00:00:00.000Z".

End Sample.

(** ** Observations on traces and runs *)

(** A call that writes to the storage. *)
Definition is_write (ev : Event) : bool :=
  match ev with
  | UpdateCall _ | CreateCall _ => true
  | _ => false
  end.

Definition is_read (ev : Event) : bool :=
  match ev with
  | ReadCall _ => true
  | _ => false
  end.

Definition is_unhandled (ev : Event) : bool :=
  match ev with
  | UnhandledRejection _ => true
  | _ => false
  end.

(** How many events of a kind a trace holds. *)
Definition count (kind : Event → bool) (tr : list Event) : nat :=
  length (filter (λ ev, kind ev = true) tr).

Definition is_press_save (a : Action) : bool :=
  match a with
  | PressSave => true
  | _ => false
  end.

Definition is_mount (a : Action) : bool :=
  match a with
  | Mount => true
  | _ => false
  end.

(** What the user does on the form, as opposed to what the effect and the
    settling read do. *)
Definition is_user_action (a : Action) : bool :=
  match a with
  | Mount | ReadSettles => false
  | _ => true
  end.

(** A tag as [addTag] stores it: not empty, no white space around it. *)
Definition stored_form (t : jsstring) : Prop := trim t = t ∧ t ≠ js "".

(** The characters a JSON value can start with: an opening bracket or
    brace, a quotation mark, a minus sign, a digit, or the first letter of
    true, false and null. *)
Definition starts_value (c : code_unit) : bool :=
  (c =? 91) || (c =? 123) || (c =? 34) || (c =? 45) ||
  ((48 <=? c) && (c <=? 57)) ||
  (c =? 116) || (c =? 102) || (c =? 110).

(** A text that is no JSON text whatever follows: it is empty after its
    white space, or starts with a character no JSON value starts with.
    [JSON.parse] raises a SyntaxError on it. *)
Definition not_json (text : jsstring) : Prop :=
  match JSON.skip_ws text with
  | [] => True
  | c :: _ => starts_value c = false
  end.

(** The adding of a tag that is typed with no white space around it; every
    other action passes. *)
Definition typed_unpadded (a : Action) : Prop :=
  match a with
  | AddTag tag => trim tag = tag
  | _ => True
  end.

(** A storage whose entries all hold their tags as a JSON text of an array
    of pairwise distinct strings. *)
Definition stores_distinct_tags
    (readJournalEntry : JsValue → Settled (option Entry.t)) : Prop :=
  ∀ id entry,
    readJournalEntry id = Fulfilled (Some entry) →
    ∃ l, JSON.array (Entry.tags entry) l ∧ NoDup l.

(** A storage in a bad state, to run the failure paths on: the read of
    entry 1 is rejected, and entry 2 holds its tags as plain text. *)
Module Faulty.

Definition entry : Entry.t :=
  {| Entry.date := js "2024-05-01T10:00:00.000Z";
     Entry.title := js "Tuesday";
     Entry.body := js "Sun";
     Entry.tags := js "a,b" |}.

Definition readJournalEntry (id : JsValue) : Settled (option Entry.t) :=
  match id with
  | Number 1 => Rejected (Rejection (js "no such table"))
  | Number 2 => Fulfilled (Some entry)
  | _ => Fulfilled None
  end.

End Faulty.

(** * Properties *)

(** ** Trimming *)

Lemma trimStart_split s :
  ∃ l, s = l ++ trimStart s ∧ blank l.
Proof.
  induction s as [|c r [l [Hs Hl]]]; simpl.
  - exists []. split; [done | constructor].
  - destruct (is_whitespace c) eqn:Hc.
    + exists (c :: l). split; [by rewrite Hs at 1 | by constructor].
    + exists []. split; [done | constructor].
Qed.

Lemma trimStart_head s c r :
  trimStart s = c :: r → is_whitespace c = false.
Proof.
  induction s as [|d s IH]; simpl; [done |].
  destruct (is_whitespace d) eqn:Hd; [done |].
  intros [= -> _]. done.
Qed.

Lemma trimStart_blank s : blank s ↔ trimStart s = [].
Proof.
  induction s as [|c r IH]; simpl.
  - split; [done | constructor].
  - destruct (is_whitespace c) eqn:Hc.
    + rewrite <- IH. split; [by inversion 1 | by constructor].
    + split; [| done]. inversion 1; congruence.
Qed.

Lemma trimEnd_split s :
  ∃ r, s = trimEnd s ++ r ∧ blank r.
Proof.
  unfold trimEnd. destruct (trimStart_split (reverse s)) as [l [Hs Hl]].
  exists (reverse l). split.
  - rewrite <- reverse_app, <- Hs. by rewrite reverse_involutive.
  - by apply Forall_reverse.
Qed.

Lemma trimEnd_last s c :
  last (trimEnd s) = Some c → is_whitespace c = false.
Proof.
  unfold trimEnd.
  destruct (trimStart (reverse s)) as [|d r] eqn:E.
  - done.
  - rewrite reverse_cons, last_snoc. intros [= <-].
    by apply (trimStart_head _ _ _ E).
Qed.

Lemma trimEnd_blank s : blank s ↔ trimEnd s = [].
Proof.
  unfold trimEnd, blank. rewrite <- (Forall_reverse _ s).
  rewrite (trimStart_blank (reverse s)).
  split.
  - by intros ->.
  - intros H. apply (f_equal reverse) in H.
    by rewrite reverse_involutive in H.
Qed.

(** The first character the trimmed end keeps is the first character of the
    string. *)
Lemma trimEnd_head s c :
  is_whitespace c = false → ∃ r1, trimEnd (c :: s) = c :: r1.
Proof.
  intros Hc. unfold trimEnd. rewrite reverse_cons.
  destruct (trimStart_split (reverse s ++ [c])) as [l [Hs Hl]].
  destruct (trimStart (reverse s ++ [c])) as [|d t] eqn:E using rev_ind.
  - exfalso. rewrite app_nil_r in Hs. rewrite <- Hs in Hl.
    apply Forall_app in Hl as [_ Hl]. inversion Hl; congruence.
  - clear IHt. rewrite app_assoc in Hs.
    apply app_inj_tail in Hs as [_ <-].
    rewrite reverse_snoc. by eexists.
Qed.

(** [trim] removes exactly the white space around the string: the input is
    the result between two runs of white space, and the result neither
    starts nor ends with white space. *)
Lemma trim_spec s :
  ∃ l r, s = l ++ trim s ++ r ∧ blank l ∧ blank r ∧
         (∀ c t, trim s = c :: t → is_whitespace c = false) ∧
         (∀ c, last (trim s) = Some c → is_whitespace c = false).
Proof.
  unfold trim.
  destruct (trimStart_split s) as [l [Hs Hl]].
  destruct (trimEnd_split (trimStart s)) as [r [Hm Hr]].
  exists l, r. split_and!; try done.
  - by rewrite <- Hm.
  - intros c t E.
    destruct (trimStart s) as [|d u] eqn:Es.
    + done.
    + pose proof (trimStart_head _ _ _ Es) as Hd.
      destruct (trimEnd_head u d Hd) as [r1 E1].
      rewrite E1 in E. by injection E as <- _.
  - intros c E. by apply (trimEnd_last (trimStart s)).
Qed.

Lemma trim_blank s : blank s ↔ trim s = js "".
Proof.
  unfold trim. rewrite <- trimEnd_blank. split.
  - intros H. destruct (trimStart_split s) as [l [Hs Hl]].
    rewrite Hs in H. by apply Forall_app in H as [_ H].
  - intros H. destruct (trimStart_split s) as [l [Hs Hl]].
    rewrite Hs. by apply Forall_app.
Qed.

(** ** Running handlers *)

(** Unfolds the monad operations of a handler applied to a world. *)
Ltac run_handler :=
  cbv [mbind mret M_bind M_ret bind ret return_ throw try_catch await
       get_state modify emit suspend alert console_error navigation_navigate
       setDate setTitle setBody setTags setTags_updater setTagModalVisible
       setShowDatePicker setLoading setKeyboardOpen].

Lemma editor_eta (st : Editor) :
  {| date := date st; title := title st; body := body st; tags := tags st;
     tagModalVisible := tagModalVisible st;
     showDatePicker := showDatePicker st; entryId := entryId st;
     loading := loading st; isKeyboardOpen := isKeyboardOpen st |} = st.
Proof. by destruct st. Qed.

Lemma world_eta (w : World) :
  {| editor := editor w; trace := trace w; suspended := suspended w |} = w.
Proof. by destruct w. Qed.

(** ** Tags *)

(** What [addTag] does, case by case: nothing but closing the modal for a
    blank input, an alert for an input that is in the list as typed, the
    trimmed input appended otherwise. *)
Lemma addTag_cases tag w :
  let st := editor w in
  addTag tag w =
    if bool_decide (trim tag = js "") then setTagModalVisible false w
    else if includes (tags st) tag then
      (alert (js "Tag already exists") ;; setTagModalVisible false) w
    else (setTags (tags st ++ [trim tag]) ;; setTagModalVisible false) w.
Proof.
  destruct w as [st tr su]. simpl. unfold addTag.
  destruct (decide (trim tag = js "")) as [E|E].
  - rewrite (bool_decide_eq_false_2 _) by (by intros H; apply H).
    by rewrite (bool_decide_eq_true_2 _ E).
  - rewrite (bool_decide_eq_true_2 _ E), (bool_decide_eq_false_2 _ E).
    run_handler. simpl.
    by destruct (includes (tags st) tag).
Qed.

Lemma addTag_tags tag w :
  tags (editor (addTag tag w).2) =
    if bool_decide (trim tag = js "") then tags (editor w)
    else if includes (tags (editor w)) tag then tags (editor w)
    else tags (editor w) ++ [trim tag].
Proof.
  rewrite addTag_cases. simpl.
  destruct (bool_decide (trim tag = js "")); [done |].
  by destruct (includes (tags (editor w)) tag).
Qed.

Lemma deleteTag_tags tag w :
  tags (editor (deleteTag tag w).2) = filter (λ t, t ≠ tag) (tags (editor w)).
Proof. done. Qed.

(** The duplicate guard works for an input without surrounding white
    space: the list stays free of duplicates. *)
Lemma addTag_NoDup_trimmed tag w :
  trim tag = tag →
  NoDup (tags (editor w)) → NoDup (tags (editor (addTag tag w).2)).
Proof.
  intros Ht Hnd. rewrite addTag_tags, Ht.
  destruct (bool_decide (tag = js "")); [done |].
  unfold includes. case_bool_decide as Hin; [done |].
  apply NoDup_app. split_and!; [done | | apply NoDup_singleton].
  intros x Hx ->%list_elem_of_singleton. done.
Qed.

Lemma deleteTag_NoDup tag w :
  NoDup (tags (editor w)) → NoDup (tags (editor (deleteTag tag w).2)).
Proof. rewrite deleteTag_tags. apply NoDup_filter. Qed.

Lemma filter_ne_length (tag : jsstring) (l : list jsstring) :
  (length (filter (λ t, t ≠ tag) l) + length (filter (λ t, t = tag) l)
   = length l)%nat.
Proof.
  induction l as [|x l IH]; [done |].
  rewrite !filter_cons.
  destruct (decide (x = tag)) as [->|Hne].
  - rewrite decide_False by (by intros H; apply H). simpl. lia.
  - rewrite decide_True by done. simpl. lia.
Qed.

Lemma filter_ne_id (tag : jsstring) (l : list jsstring) :
  tag ∉ l → filter (λ t, t ≠ tag) l = l.
Proof.
  induction l as [|x l IH]; [done |].
  intros [Hx Hl]%not_elem_of_cons.
  rewrite filter_cons, decide_True by done. by rewrite IH.
Qed.

(** C8: whatever [addTag] stores is the input with its surrounding white
    space removed, an input that is blank after trimming leaves the tags as
    they are, and [addTag("  x  ")] on a new draft stores the tag [x]. *)
Theorem addTag_stores_trimmed (tag : jsstring) (w : World) (now : Z) :
  let before := tags (editor w) in
  let after := tags (editor (addTag tag w).2) in
  (after = before ∨ after = before ++ [trim tag]) ∧
  (∃ l r, tag = l ++ trim tag ++ r ∧ blank l ∧ blank r ∧
          (∀ c t, trim tag = c :: t → is_whitespace c = false) ∧
          (∀ c, last (trim tag) = Some c → is_whitespace c = false)) ∧
  (trim tag = js "" → after = before) ∧
  (trim tag ≠ js "" → tag ∉ before → after = before ++ [trim tag]) ∧
  tags (editor (addTag (js "  x  ") (opened now Null)).2) = [js "x"].
Proof.
  cbv zeta. rewrite addTag_tags. split_and!.
  - destruct (bool_decide (trim tag = js "")); [by left |].
    destruct (includes (tags (editor w)) tag); [by left | by right].
  - apply trim_spec.
  - intros E. by rewrite (bool_decide_eq_true_2 _ E).
  - intros E Hin. rewrite (bool_decide_eq_false_2 _ E).
    unfold includes. by rewrite (bool_decide_eq_false_2 _ Hin).
  - reflexivity.
Qed.

Lemma addTag_stores_trimmed_witness :
  tags (editor (addTag (js " a ") (opened 0 Null)).2) = [] ++ [trim (js " a ")].
Proof.
  destruct (addTag_stores_trimmed (js " a ") (opened 0 Null) 0)
    as (_ & _ & _ & H & _).
  apply H.
  - discriminate.
  - apply not_elem_of_nil.
Defined.

(** C9: [deleteTag] removes every occurrence of the value and nothing else,
    keeps the order of the other tags, reports nothing, and changes nothing
    at all when the value is not in the list. *)
Theorem deleteTag_removes_all (tag : jsstring) (w : World) :
  let before := tags (editor w) in
  let after := tags (editor (deleteTag tag w).2) in
  deleteTag tag w = setTags after w ∧
  (deleteTag tag w).1 = Normal tt ∧
  trace (deleteTag tag w).2 = trace w ∧
  (tag ∉ after) ∧
  (after `sublist_of` before) ∧
  (length after + length (filter (λ t, t = tag) before) = length before)%nat ∧
  (tag ∉ before → deleteTag tag w = (Normal tt, w)).
Proof.
  cbv zeta. rewrite deleteTag_tags. split_and!; try done.
  - rewrite list_elem_of_filter. by intros [H _].
  - apply sublist_filter.
  - apply filter_ne_length.
  - intros Hin. unfold deleteTag. run_handler. simpl.
    rewrite (filter_ne_id _ _ Hin), editor_eta. by rewrite world_eta.
Qed.

Lemma deleteTag_removes_all_witness :
  let w := (addTag (js "a") (opened 0 Null)).2 in
  deleteTag (js "b") w = (Normal tt, w).
Proof.
  cbv zeta.
  destruct (deleteTag_removes_all (js "b") (addTag (js "a") (opened 0 Null)).2)
    as (_ & _ & _ & _ & _ & _ & H).
  apply H. simpl.
  intros [E | E%not_elem_of_nil]%elem_of_cons; [discriminate | done].
Defined.

(** C2, at the input that breaks it: the list holds [x] and the user adds
    [x] behind a space.  The trimmed input is in the list, yet [addTag]
    raises no alert and appends a second [x]. *)
Theorem addTag_padded_duplicate_accepted (now : Z) :
  let w := (addTag (js "x") (opened now Null)).2 in
  tags (editor w) = [js "x"] ∧
  trim (js " x") ∈ tags (editor w) ∧
  (addTag (js " x") w).1 = Normal tt ∧
  tags (editor (addTag (js " x") w).2) = [js "x"; js "x"] ∧
  trace (addTag (js " x") w).2 = [].
Proof.
  cbv zeta. split_and!; try reflexivity.
  apply list_elem_of_singleton. reflexivity.
Qed.

(** ** Saving *)

Section SaveProperties.

Variable updateJournalEntry : Arg.t → Settled unit.
Variable createJournalEntry : Arg.t → Settled unit.
Variable ISO_text : Z → jsstring.

Local Abbreviation onSave := (onSave updateJournalEntry createJournalEntry ISO_text).
Local Abbreviation failed_call := (failed_call updateJournalEntry createJournalEntry).

Local Abbreviation save_failed_message :=
  (js "Failed to save journal entry:").

(** Every way [onSave] can go. *)
Lemma onSave_cases w :
  let st := editor w in
  onSave w =
    if ToBoolean (entryId st) then
      match date st with
      | InvalidDate =>
          (Normal tt,
           log w [ConsoleError save_failed_message
                    (RangeError (js "Invalid time value"))])
      | TimeValue t =>
          let entry :=
            {| Arg.id := Some (entryId st); Arg.date := ISO_text t;
               Arg.title := title st; Arg.body := body st;
               Arg.tags := tags st |} in
          match updateJournalEntry entry with
          | Fulfilled _ =>
              (Normal tt,
               log w [UpdateCall entry; Navigate (js "JournalScreen")])
          | Rejected e =>
              (Normal tt,
               log w [UpdateCall entry; ConsoleError save_failed_message e])
          end
      end
    else if bool_decide (trim (body st) = js "") then
      (Return, log w [Alert (js "Please enter a journal entry")])
    else
      match date st with
      | InvalidDate =>
          (Normal tt,
           log w [ConsoleError save_failed_message
                    (RangeError (js "Invalid time value"))])
      | TimeValue t =>
          let entry :=
            {| Arg.id := None; Arg.date := ISO_text t;
               Arg.title := title st; Arg.body := body st;
               Arg.tags := tags st |} in
          match createJournalEntry entry with
          | Fulfilled _ =>
              (Normal tt,
               log w [CreateCall entry; Navigate (js "JournalScreen")])
          | Rejected e =>
              (Normal tt,
               log w [CreateCall entry; ConsoleError save_failed_message e])
          end
      end.
Proof.
  destruct w as [st tr su]. cbv zeta. unfold onSave, log. simpl.
  run_handler. simpl.
  destruct (ToBoolean (entryId st)).
  - destruct (date st) as [t|]; simpl; [| done].
    unfold call_update. run_handler. simpl.
    destruct (updateJournalEntry _) as [[]|e]; simpl;
      by rewrite <- app_assoc.
  - destruct (bool_decide (trim (body st) = js "")); simpl; [done |].
    destruct (date st) as [t|]; simpl; [| done].
    unfold call_create. run_handler. simpl.
    destruct (createJournalEntry _) as [[]|e]; simpl;
      by rewrite <- app_assoc.
Qed.

(** C3: on a draft without identifier whose body is empty or white space
    only, [onSave] alerts the user and returns.  The alert is the only
    effect: no call to the storage module, no navigation, and the
    component state (date, title, body, tags and the rest) is what it
    was. *)
Theorem onSave_blank_body_aborts (w : World) :
  ToBoolean (entryId (editor w)) = false →
  blank (body (editor w)) →
  (onSave w).1 = Return ∧
  editor (onSave w).2 = editor w ∧
  trace (onSave w).2 = trace w ++ [Alert (js "Please enter a journal entry")].
Proof.
  intros Hid Hb%trim_blank. rewrite onSave_cases. cbv zeta.
  by rewrite Hid, (bool_decide_eq_true_2 _ Hb).
Qed.


(** C6: when a storage call made by [onSave] is rejected, [onSave] still
    completes normally (the error stops at its [catch]), the component
    state is untouched, and the effects of the attempt are the one call
    followed by the console message carrying the error: no second call,
    no navigation, no alert. *)
Theorem onSave_failure_is_logged (w : World) (new : list Event)
    (ev : Event) (e : JsError) :
  trace (onSave w).2 = trace w ++ new →
  ev ∈ new →
  failed_call ev e →
  (onSave w).1 = Normal tt ∧
  fire_and_forget onSave w = onSave w ∧
  editor (onSave w).2 = editor w ∧
  new = [ev; ConsoleError save_failed_message e] ∧
  (∀ screen, Navigate screen ∉ new).
Proof.
  rewrite onSave_cases. cbv zeta. unfold fire_and_forget.
  rewrite onSave_cases. cbv zeta.
  intros Hnew Hin Hfail.
  assert (∀ x y : Event, x ∈ [y] → x = y) as one
    by (by intros x y ?%list_elem_of_singleton).
  assert (∀ x y z : Event, x ∈ [y; z] → x = y ∨ x = z) as two
    by (intros x y z [->|?%list_elem_of_singleton]%elem_of_cons; auto).
  destruct (ToBoolean (entryId (editor w))).
  - destruct (date (editor w)) as [t|]; simpl in *.
    + destruct (updateJournalEntry _) as [[]|e1] eqn:Hu; simpl in *;
        apply app_inv_head in Hnew; subst new;
        apply two in Hin as [-> | ->]; simpl in Hfail; try done;
        rewrite Hu in Hfail; try done.
      injection Hfail as <-. split_and!; try done.
      intros screen [?|[?|?%not_elem_of_nil]%elem_of_cons]%elem_of_cons; done.
    + apply app_inv_head in Hnew; subst new. by apply one in Hin as ->.
  - destruct (bool_decide (trim (body (editor w)) = js "")); simpl in *.
    + apply app_inv_head in Hnew; subst new. by apply one in Hin as ->.
    + destruct (date (editor w)) as [t|]; simpl in *.
      * destruct (createJournalEntry _) as [[]|e1] eqn:Hu; simpl in *;
          apply app_inv_head in Hnew; subst new;
          apply two in Hin as [-> | ->]; simpl in Hfail; try done;
          rewrite Hu in Hfail; try done.
        injection Hfail as <-. split_and!; try done.
        intros screen [?|[?|?%not_elem_of_nil]%elem_of_cons]%elem_of_cons; done.
      * apply app_inv_head in Hnew; subst new. by apply one in Hin as ->.
Qed.

End SaveProperties.

(** ** JSON.parse reads every JSON text of an array of strings *)

Module JSONFacts.
Import JSON.

Lemma skip_ws_app w r : ws w → skip_ws (w ++ r) = skip_ws r.
Proof.
  induction 1 as [|c w Hc _ IH]; simpl; [done |]. by rewrite Hc.
Qed.

Lemma skip_ws_all w : ws w → skip_ws w = [].
Proof.
  intros H. rewrite <- (app_nil_r w). by rewrite skip_ws_app.
Qed.

Lemma simple_escape_not_u e v : simple_escape e = Some v → (e =? 117) = false.
Proof.
  unfold simple_escape. destruct (e =? 117) eqn:E; [| done].
  apply N.eqb_eq in E as ->. done.
Qed.

Lemma parse_chars_sound body s :
  chars body s → ∀ rest, parse_chars (body ++ 34 :: rest) = Some (s, rest).
Proof.
  induction 1 as [|t c ts s Hc _ IH]; intros rest; [done |].
  destruct Hc as [c Hge H34 H92 | e v He | h1 h2 h3 h4 v Hv]; simpl.
  - rewrite (proj2 (N.eqb_neq c 34) H34), (proj2 (N.eqb_neq c 92) H92).
    rewrite (proj2 (N.ltb_ge c 32) Hge). by rewrite IH.
  - rewrite (simple_escape_not_u _ _ He), He. simpl. by rewrite IH.
  - rewrite Hv. simpl. by rewrite IH.
Qed.

Lemma parse_string_sound t s rest :
  string_literal t s → parse_string (t ++ rest) = Some (s, rest).
Proof.
  intros [body s' Hb]. simpl. rewrite <- app_assoc.
  by apply parse_chars_sound.
Qed.

Lemma string_literal_head t s : string_literal t s → ∃ t1, t = 34 :: t1.
Proof. intros [body s' _]. by eexists. Qed.

Lemma elements_head body l : elements body l → ∃ b1, body = 34 :: b1.
Proof.
  intros [t s w Ht _ | t s w1 w2 ts l1 Ht _ _ _];
    destruct (string_literal_head _ _ Ht) as [t1 ->]; by eexists.
Qed.

Lemma parse_elements_sound body l :
  elements body l →
  ∀ fuel rest, (length l ≤ fuel)%nat →
    parse_elements fuel (body ++ 93 :: rest) = Some (l, rest).
Proof.
  induction 1 as [t s w Ht Hw | t s w1 w2 ts l Ht Hw1 Hw2 Hts IH];
    intros [|fuel] rest Hfuel; simpl in Hfuel; try lia.
  - cbn [parse_elements]. rewrite <- app_assoc.
    rewrite (parse_string_sound _ _ _ Ht). simpl.
    by rewrite (skip_ws_app _ _ Hw).
  - cbn [parse_elements]. rewrite <- !app_assoc. simpl.
    rewrite <- app_assoc.
    rewrite (parse_string_sound _ _ _ Ht). simpl.
    rewrite (skip_ws_app _ _ Hw1). simpl.
    rewrite (skip_ws_app _ _ Hw2).
    destruct (elements_head _ _ Hts) as [b1 Hb].
    assert (skip_ws (ts ++ 93 :: rest) = ts ++ 93 :: rest) as ->
      by (by rewrite Hb).
    rewrite IH by lia. done.
Qed.

Lemma string_literal_length t s : string_literal t s → (1 ≤ length t)%nat.
Proof. intros [body s' _]. simpl. lia. Qed.

Lemma elements_length body l : elements body l → (length l ≤ length body)%nat.
Proof.
  induction 1 as [t s w Ht Hw | t s w1 w2 ts l Ht Hw1 Hw2 Hts IH].
  - rewrite length_app. pose proof (string_literal_length _ _ Ht).
    simpl. lia.
  - rewrite !length_app. simpl. rewrite !length_app.
    pose proof (string_literal_length _ _ Ht). lia.
Qed.

Lemma parse_items_sound body l rest :
  elements body l → parse_items (body ++ 93 :: rest) = Some (l, rest).
Proof.
  intros Hb. destruct (elements_head _ _ Hb) as [b1 Hb1].
  transitivity (parse_elements (length (body ++ 93 :: rest))
                  (body ++ 93 :: rest)).
  - by rewrite Hb1.
  - apply parse_elements_sound; [done |].
    pose proof (elements_length _ _ Hb). rewrite length_app. lia.
Qed.

(** The parser reads every text of the grammar, and reads it as the array
    the text denotes. *)
Lemma parse_sound text l : array text l → parse text = Some l.
Proof.
  intros [w0 w1 w2 H0 H1 H2 | w0 w1 w2 body l1 H0 H1 H2 Hb];
    unfold parse, parse_array.
  - rewrite (skip_ws_app _ _ H0). simpl.
    rewrite (skip_ws_app _ _ H1). simpl.
    by rewrite (skip_ws_all _ H2).
  - rewrite (skip_ws_app _ _ H0). simpl.
    rewrite (skip_ws_app _ _ H1).
    destruct (elements_head _ _ Hb) as [b1 Hb1].
    assert (skip_ws (body ++ 93 :: w2) = body ++ 93 :: w2) as ->
      by (by rewrite Hb1).
    rewrite (parse_items_sound _ _ _ Hb). simpl.
    by rewrite (skip_ws_all _ H2).
Qed.

(** *** What JSON.stringify writes is in the grammar *)

Lemma hex_val_digit n : n < 16 → hex_val (hex_digit n) = Some n.
Proof.
  intros Hn. unfold hex_digit, hex_val.
  destruct (n <? 10) eqn:E.
  - apply N.ltb_lt in E.
    rewrite (proj2 (N.leb_le 48 (48 + n))) by lia.
    rewrite (proj2 (N.leb_le (48 + n) 57)) by lia.
    simpl. f_equal. lia.
  - apply N.ltb_ge in E.
    rewrite (proj2 (N.leb_gt (87 + n) 57)) by lia.
    rewrite andb_false_r.
    rewrite (proj2 (N.leb_le 97 (87 + n))) by lia.
    rewrite (proj2 (N.leb_le (87 + n) 102)) by lia.
    simpl. f_equal. lia.
Qed.

Lemma unicode_escape_char c : c < 65536 → char (unicode_escape c) c.
Proof.
  intros Hc. apply char_unicode. unfold hex4.
  assert (∀ k, 0 < k → (c / k) `mod` 16 < 16) as Hlt
    by (intros; by apply N.mod_lt).
  rewrite !hex_val_digit; try (by apply Hlt); [| by apply N.mod_lt].
  simpl. f_equal.
  pose proof (N.div_mod c 16 ltac:(done)) as H1.
  pose proof (N.div_mod (c / 16) 16 ltac:(done)) as H2.
  pose proof (N.div_mod (c / 256) 16 ltac:(done)) as H3.
  rewrite N.Div0.div_div in H2, H3.
  change (16 * 16) with 256 in H2. change (256 * 16) with 4096 in H3.
  assert (c / 4096 < 16) as H4
    by (by apply N.Div0.div_lt_upper_bound).
  rewrite (N.mod_small (c / 4096) 16 H4). lia.
Qed.

Lemma quote_unit_char c : char (quote_unit c) c.
Proof.
  unfold quote_unit.
  repeat match goal with
  | |- context [if ?x =? ?n then _ else _] =>
      destruct (N.eqb_spec x n) as [-> | ?]; [by apply char_escape |]
  end.
  destruct ((c <? 32) || is_high_surrogate c || is_low_surrogate c) eqn:E.
  - apply unicode_escape_char.
    unfold is_high_surrogate, is_low_surrogate in E.
    repeat (apply orb_true_iff in E as [E | E]).
    + apply N.ltb_lt in E. lia.
    + apply andb_true_iff in E as [_ E%N.leb_le]. lia.
    + apply andb_true_iff in E as [_ E%N.leb_le]. lia.
  - apply orb_false_iff in E as [E _]. apply orb_false_iff in E as [E _].
    apply N.ltb_ge in E. by apply char_plain.
Qed.

Lemma chars_app t1 s1 t2 s2 :
  chars t1 s1 → chars t2 s2 → chars (t1 ++ t2) (s1 ++ s2).
Proof.
  induction 1 as [|t c ts s Hc _ IH]; intros H2; [done |].
  rewrite <- app_assoc. simpl. constructor; [done | by apply IH].
Qed.

Lemma chars_one t c : char t c → chars t [c].
Proof.
  intros H. rewrite <- (app_nil_r t). constructor; [done | constructor].
Qed.

Lemma surrogate_plain c :
  is_high_surrogate c || is_low_surrogate c = true → char [c] c.
Proof.
  unfold is_high_surrogate, is_low_surrogate.
  intros [E | E]%orb_true_iff;
    apply andb_true_iff in E as [E%N.leb_le _];
    apply char_plain; lia.
Qed.

Lemma quote_chars_chars s :
  chars (quote_chars s) s ∧ ∀ c, chars (quote_chars (c :: s)) (c :: s).
Proof.
  induction s as [|d r [IH1 IH2]].
  - split; [constructor |].
    intros c. simpl. destruct (is_high_surrogate c).
    + apply chars_one, quote_unit_char.
    + rewrite app_nil_r. apply chars_one, quote_unit_char.
  - split; [apply IH2 |].
    intros c. cbn [quote_chars].
    destruct (is_high_surrogate c) eqn:Hc.
    + destruct (is_low_surrogate d) eqn:Hd.
      * apply (chars_cons [c] c (d :: quote_chars r) (d :: r)).
        { apply surrogate_plain. by rewrite Hc. }
        apply (chars_cons [d] d (quote_chars r) r); [| done].
        apply surrogate_plain. by rewrite Hd, orb_true_r.
      * apply (chars_cons (quote_unit c) c); [apply quote_unit_char |].
        apply IH2.
    + apply (chars_cons (quote_unit c) c); [apply quote_unit_char |].
      apply IH2.
Qed.

Lemma quote_literal s : string_literal (quote s) s.
Proof. constructor. apply quote_chars_chars. Qed.

Lemma join_elements_elements s l :
  elements (join_elements (s :: l)) (s :: l).
Proof.
  revert s. induction l as [|s1 l IH]; intros s.
  - cbn [join_elements]. rewrite <- (app_nil_r (quote s)).
    apply elements_last; [apply quote_literal | constructor].
  - change (join_elements (s :: s1 :: l))
      with (quote s ++ [] ++ 44 :: [] ++ join_elements (s1 :: l)).
    apply elements_more;
      [apply quote_literal | constructor | constructor | apply IH].
Qed.

Lemma stringify_array l : array (stringify l) l.
Proof.
  unfold stringify. destruct l as [|s l].
  - apply (array_empty [] [] []); constructor.
  - change (91 :: join_elements (s :: l) ++ [93])
      with ([] ++ 91 :: [] ++ join_elements (s :: l) ++ 93 :: []).
    apply array_elements; try constructor. apply join_elements_elements.
Qed.

(** Reading back what was written gives the list that was written. *)
Lemma parse_stringify l : parse (stringify l) = Some l.
Proof. apply parse_sound, stringify_array. Qed.

(** *** Every text the parser accepts is in the grammar *)

Lemma skip_ws_split s : ∃ w, s = w ++ skip_ws s ∧ ws w.
Proof.
  induction s as [|c r (w & Hr & Hw)]; simpl.
  - exists []. split; [done | constructor].
  - destruct (is_ws c) eqn:Hc.
    + exists (c :: w). split; [by rewrite Hr at 1 | by constructor].
    + exists []. split; [done | constructor].
Qed.

Lemma parse_chars_complete n :
  ∀ s str rest, (length s ≤ n)%nat →
    parse_chars s = Some (str, rest) →
    ∃ body, s = body ++ 34 :: rest ∧ chars body str.
Proof.
  induction n as [|n IH]; intros [|c r] str rest Hn Hp; simpl in *;
    try done; try lia.
  destruct (N.eqb_spec c 34) as [-> | H34].
  { injection Hp as <- <-. exists []. split; [done | constructor]. }
  destruct (N.eqb_spec c 92) as [-> | H92].
  - destruct r as [|e r1]; [done |].
    destruct (N.eqb_spec e 117) as [-> | H117].
    + destruct r1 as [|h1 [|h2 [|h3 [|h4 r2]]]]; try done.
      destruct (hex4 h1 h2 h3 h4) as [v|] eqn:Hv; [| done]. simpl in Hp.
      destruct (parse_chars r2) as [[str1 rest1]|] eqn:Hr; [| done].
      injection Hp as <- <-.
      destruct (IH r2 str1 rest1) as (body & -> & Hb);
        [simpl in Hn; lia | done |].
      exists ([92; 117; h1; h2; h3; h4] ++ body). split; [done |].
      constructor; [by constructor | done].
    + destruct (simple_escape e) as [v|] eqn:Hv; [| done]. simpl in Hp.
      destruct (parse_chars r1) as [[str1 rest1]|] eqn:Hr; [| done].
      injection Hp as <- <-.
      destruct (IH r1 str1 rest1) as (body & -> & Hb);
        [simpl in Hn; lia | done |].
      exists ([92; e] ++ body). split; [done |].
      constructor; [by constructor | done].
  - destruct (N.ltb_spec c 32) as [Hlt | Hge]; [done |].
    destruct (parse_chars r) as [[str1 rest1]|] eqn:Hr; [| done].
    injection Hp as <- <-.
    destruct (IH r str1 rest1) as (body & -> & Hb); [lia | done |].
    exists ([c] ++ body). split; [done |].
    constructor; [by constructor | done].
Qed.

Lemma parse_string_complete s str rest :
  parse_string s = Some (str, rest) →
  ∃ t, s = t ++ rest ∧ string_literal t str.
Proof.
  destruct s as [|c r]; [done |]. unfold parse_string.
  destruct (N.eqb_spec c 34) as [-> | Hc]; [| done].
  intros Hp.
  destruct (parse_chars_complete _ _ _ _ (le_n _) Hp) as (body & -> & Hb).
  exists (34 :: body ++ [34]). split.
  - simpl. by rewrite <- app_assoc.
  - by constructor.
Qed.

Lemma parse_elements_complete fuel :
  ∀ s l rest,
    parse_elements fuel s = Some (l, rest) →
    ∃ body, s = body ++ 93 :: rest ∧ elements body l.
Proof.
  induction fuel as [|fuel IH]; intros s l rest Hp; [done |].
  cbn [parse_elements] in Hp.
  destruct (parse_string s) as [[str r]|] eqn:Hs; [| done]. simpl in Hp.
  destruct (parse_string_complete _ _ _ Hs) as (t & -> & Ht).
  destruct (skip_ws_split r) as (w1 & Hr & Hw1).
  destruct (skip_ws r) as [|c r1]; [done |].
  destruct (N.eqb_spec c 44) as [-> | H44].
  - destruct (parse_elements fuel (skip_ws r1)) as [[l1 rest1]|] eqn:He;
      [| done].
    injection Hp as <- <-.
    destruct (IH _ _ _ He) as (body & Hb & Hel).
    destruct (skip_ws_split r1) as (w2 & Hr1 & Hw2).
    exists (t ++ w1 ++ 44 :: w2 ++ body). split.
    + rewrite Hr, Hr1, Hb. rewrite <- !app_assoc. simpl.
      by rewrite <- !app_assoc.
    + by constructor.
  - destruct (N.eqb_spec c 93) as [-> | H93]; [| done].
    injection Hp as <- <-.
    exists (t ++ w1). split.
    + rewrite Hr. by rewrite <- app_assoc.
    + by constructor.
Qed.

Lemma parse_complete text l : parse text = Some l → array text l.
Proof.
  unfold parse, parse_array. intros Hp.
  destruct (skip_ws_split text) as (w0 & Ht & Hw0).
  destruct (skip_ws text) as [|c r]; [done |].
  destruct (N.eqb_spec c 91) as [-> | H91]; [| done].
  destruct (skip_ws_split r) as (w1 & Hr & Hw1).
  destruct (parse_items (skip_ws r)) as [[l1 rest]|] eqn:Hi; [| done].
  cbn [mbind option_bind] in Hp.
  destruct (skip_ws_split rest) as (w2 & Hrest & Hw2).
  destruct (skip_ws rest); [| done]. injection Hp as <-.
  rewrite app_nil_r in Hrest. subst rest.
  unfold parse_items in Hi.
  destruct (skip_ws r) as [|d r1]; [done |].
  destruct (N.eqb_spec d 93) as [-> | H93].
  - injection Hi as <- <-. rewrite Ht, Hr. by constructor.
  - destruct (parse_elements_complete _ _ _ _ Hi) as (body & Hb & Hel).
    rewrite Ht, Hr, Hb. by constructor.
Qed.

(** [parse] accepts exactly the texts of the grammar. *)
Lemma parse_spec text l : parse text = Some l ↔ array text l.
Proof. split; [apply parse_complete | apply parse_sound]. Qed.

End JSONFacts.

(** ** Loading *)

Section LoadProperties.

Variable readJournalEntry : JsValue → Settled (option Entry.t).
Variable new_Date : jsstring → JsDate.

Local Abbreviation loadEntry_resume :=
  (loadEntry_resume readJournalEntry new_Date).
Local Abbreviation read_settles := (read_settles readJournalEntry new_Date).

(** Without identifier the effect only leaves the loading phase: the
    form shows the initial values at once. *)
Lemma mount_without_identifier (now : Z) (id : JsValue) :
  ToBoolean id = false →
  let w := (load_effect (opened now id)).2 in
  phase (editor w) = Ready ∧
  trace w = [] ∧ suspended w = [] ∧
  date (editor w) = TimeValue now ∧ title (editor w) = js "" ∧
  body (editor w) = js "" ∧ tags (editor w) = [].
Proof.
  intros Hid. cbv zeta. unfold load_effect. run_handler. simpl.
  by rewrite Hid.
Qed.

(** C5, at the input that breaks it: the screen is opened with an
    identifier.  When the effect has run, the read has been issued and has
    not settled, yet [loading] is already false: the form is shown, with
    the initial values (the current date, empty title, body and tags)
    and not with the fields of the stored entry. *)
Theorem ready_before_read_settles (now : Z) (id : JsValue) :
  ToBoolean id = true →
  let w := (load_effect (opened now id)).2 in
  phase (editor w) = Ready ∧
  trace w = [ReadCall id] ∧ suspended w = [id] ∧
  date (editor w) = TimeValue now ∧ title (editor w) = js "" ∧
  body (editor w) = js "" ∧ tags (editor w) = [].
Proof.
  intros Hid. cbv zeta. unfold load_effect. run_handler. simpl.
  by rewrite Hid.
Qed.

(** What the second half of [loadEntry] does with a stored entry whose
    tag text parses. *)
Lemma loadEntry_resume_found id entry l w :
  readJournalEntry id = Fulfilled (Some entry) →
  JSON.parse (Entry.tags entry) = Some l →
  loadEntry_resume id w =
    (Normal tt,
     {| editor :=
          {| date := new_Date (Entry.date entry);
             title := Entry.title entry; body := Entry.body entry;
             tags := l;
             tagModalVisible := tagModalVisible (editor w);
             showDatePicker := showDatePicker (editor w);
             entryId := entryId (editor w);
             loading := loading (editor w);
             isKeyboardOpen := isKeyboardOpen (editor w) |};
        trace := trace w; suspended := suspended w |}).
Proof.
  intros Hr Hp. unfold loadEntry_resume, JSON_parse.
  rewrite Hr. run_handler. cbv beta iota. rewrite Hp. reflexivity.
Qed.

(** C7: when the read gives a stored entry whose tag field is a JSON text
    of an array of strings, the second half of [loadEntry] completes and
    the tags of the draft are the strings of that array, in the order of
    the text; the text of the array a, b gives the tags a, b. *)
Theorem loadEntry_parses_tags (id : JsValue) (entry : Entry.t) (w : World) :
  readJournalEntry id = Fulfilled (Some entry) →
  (∀ l, JSON.array (Entry.tags entry) l →
        (loadEntry_resume id w).1 = Normal tt ∧
        tags (editor (loadEntry_resume id w).2) = l) ∧
  (Entry.tags entry = jsq "['a','b']" →
   tags (editor (loadEntry_resume id w).2) = [js "a"; js "b"]).
Proof.
  intros Hr. split.
  - intros l Hl%JSONFacts.parse_sound.
    by rewrite (loadEntry_resume_found _ _ _ _ Hr Hl).
  - intros Ht.
    assert (JSON.parse (Entry.tags entry) = Some [js "a"; js "b"]) as Hl
      by (by rewrite Ht).
    by rewrite (loadEntry_resume_found _ _ _ _ Hr Hl).
Qed.

(** C10: when the read finds no entry, the second half of [loadEntry]
    changes nothing and reports nothing.  On a screen opened with an
    identifier the form then shows the initial values: the current date,
    empty title, body and tags; the only effect was the read itself. *)
Theorem loadEntry_absent_keeps_draft (id : JsValue) (w : World) (now : Z) :
  readJournalEntry id = Fulfilled None →
  loadEntry_resume id w = (Normal tt, w) ∧
  (ToBoolean id = true →
   let w1 := (read_settles (load_effect (opened now id)).2).2 in
   phase (editor w1) = Ready ∧
   date (editor w1) = TimeValue now ∧ title (editor w1) = js "" ∧
   body (editor w1) = js "" ∧ tags (editor w1) = [] ∧
   trace w1 = [ReadCall id] ∧ suspended w1 = []).
Proof.
  intros Hr. split.
  - unfold loadEntry_resume. by rewrite Hr.
  - intros Hid. cbv zeta. unfold load_effect. run_handler. simpl.
    rewrite Hid. simpl. unfold read_settles. simpl.
    unfold fire_and_forget, loadEntry_resume. by rewrite Hr.
Qed.

End LoadProperties.

(** ** The tags along a run of the screen *)

Section MachineProperties.

Variable readJournalEntry : JsValue → Settled (option Entry.t).
Variable updateJournalEntry : Arg.t → Settled unit.
Variable createJournalEntry : Arg.t → Settled unit.
Variable new_Date : jsstring → JsDate.
Variable ISO_text : Z → jsstring.

Local Abbreviation onSave :=
  (onSave updateJournalEntry createJournalEntry ISO_text).
Local Abbreviation read_settles := (read_settles readJournalEntry new_Date).
Local Abbreviation step :=
  (step readJournalEntry updateJournalEntry createJournalEntry
     new_Date ISO_text).
Local Abbreviation run :=
  (run readJournalEntry updateJournalEntry createJournalEntry
     new_Date ISO_text).
Local Abbreviation keeps_tags_distinct :=
  (keeps_tags_distinct readJournalEntry).

Lemma onSave_editor w : editor (fire_and_forget onSave w).2 = editor w.
Proof.
  unfold fire_and_forget. rewrite onSave_cases. cbv zeta.
  destruct (ToBoolean _).
  - destruct (date _); [destruct (updateJournalEntry _) as [[]|] |]; done.
  - destruct (bool_decide _); [done |].
    destruct (date _); [destruct (createJournalEntry _) as [[]|] |]; done.
Qed.

Lemma load_effect_tags w :
  tags (editor (load_effect w).2) = tags (editor w).
Proof.
  unfold load_effect. run_handler. simpl. by destruct (ToBoolean _).
Qed.

Lemma read_settles_tags w :
  tags (editor (read_settles w).2) = tags (editor w) ∨
  ∃ id entry l,
    readJournalEntry id = Fulfilled (Some entry) ∧
    JSON.parse (Entry.tags entry) = Some l ∧
    tags (editor (read_settles w).2) = l.
Proof.
  unfold read_settles. destruct (suspended w) as [|id rest]; [by left |].
  unfold fire_and_forget, loadEntry_resume, JSON_parse.
  destruct (readJournalEntry id) as [[entry|]|e] eqn:Hr;
    run_handler; cbv beta iota; [| by left | by left].
  destruct (JSON.parse (Entry.tags entry)) as [l|] eqn:Hp; [| by left].
  right. by exists id, entry, l.
Qed.

(** One step keeps the tags free of duplicates when the tag that is added
    carries no surrounding white space and the stored list that is loaded
    has no duplicates. *)
Lemma step_NoDup w a :
  keeps_tags_distinct a →
  NoDup (tags (editor w)) → NoDup (tags (editor (step w a))).
Proof.
  intros Ha Hnd. destruct a; unfold step; cbn [handle]; try done.
  - by rewrite load_effect_tags.
  - destruct (read_settles_tags w) as [-> | (id & entry & l & Hr & Hp & ->)];
      [done | by apply (Ha id entry l)].
  - by rewrite onSave_editor.
  - by apply addTag_NoDup_trimmed.
  - by apply deleteTag_NoDup.
  - by destruct selectedDate.
Qed.

(** The same along a run. *)
Lemma run_NoDup actions w :
  Forall keeps_tags_distinct actions →
  NoDup (tags (editor w)) → NoDup (tags (editor (run actions w))).
Proof.
  intros Hall. revert w.
  induction Hall as [|a actions Ha _ IH]; intros w Hnd; [done |].
  apply IH. by apply step_NoDup.
Qed.

(** C1, at the run that breaks it: on a new draft the user adds the tag
    [x] and then [x] typed behind a space.  Both are stored and the tags
    hold [x] twice. *)
Theorem padded_duplicate_breaks_distinct_tags (now : Z) :
  let w := run [Mount; AddTag (js "x"); AddTag (js " x")] (opened now Null) in
  tags (editor w) = [js "x"; js "x"] ∧ ¬ NoDup (tags (editor w)).
Proof.
  cbv zeta.
  assert (tags (editor (run [Mount; AddTag (js "x"); AddTag (js " x")]
                          (opened now Null))) = [js "x"; js "x"]) as ->
    by reflexivity.
  split; [done |].
  intros [Hin _]%NoDup_cons. apply Hin, list_elem_of_singleton. done.
Qed.

End MachineProperties.

(** ** The properties on the sample storage *)

Lemma onSave_blank_body_aborts_witness :
  let w := (setBody (js "   ") (opened 0 Null)).2 in
  let r := onSave Sample.updateJournalEntry Sample.createJournalEntry
             Sample.ISO_text w in
  r.1 = Return ∧ editor r.2 = editor w ∧
  trace r.2 = trace w ++ [Alert (js "Please enter a journal entry")].
Proof.
  apply onSave_blank_body_aborts.
  - reflexivity.
  - repeat constructor.
Defined.


Lemma onSave_failure_is_logged_witness :
  let w := opened 0 (Number 1) in
  let call :=
    UpdateCall
      {| Arg.id := Some (Number 1); Arg.date := js "1970-01-01T00:00:00.000Z";
         Arg.title := js ""; Arg.body := js ""; Arg.tags := [] |} in
  let e := Rejection (js "database is locked") in
  let r := onSave Sample.rejecting Sample.rejecting Sample.ISO_text w in
  r.1 = Normal tt ∧
  fire_and_forget
    (onSave Sample.rejecting Sample.rejecting Sample.ISO_text) w = r ∧
  editor r.2 = editor w ∧
  [call; ConsoleError (js "Failed to save journal entry:") e]
    = [call; ConsoleError (js "Failed to save journal entry:") e] ∧
  (∀ screen,
     Navigate screen
       ∉ [call; ConsoleError (js "Failed to save journal entry:") e]).
Proof.
  cbv zeta.
  apply (onSave_failure_is_logged Sample.rejecting Sample.rejecting
           Sample.ISO_text (opened 0 (Number 1))).
  - reflexivity.
  - apply list_elem_of_here.
  - reflexivity.
Defined.

Lemma ready_before_read_settles_witness :
  let w := (load_effect (opened 0 (Number 1))).2 in
  phase (editor w) = Ready ∧
  trace w = [ReadCall (Number 1)] ∧ suspended w = [Number 1] ∧
  date (editor w) = TimeValue 0 ∧ title (editor w) = js "" ∧
  body (editor w) = js "" ∧ tags (editor w) = [].
Proof. apply (ready_before_read_settles 0 (Number 1)). reflexivity. Defined.

Lemma loadEntry_parses_tags_witness :
  let r := loadEntry_resume Sample.readJournalEntry Sample.new_Date
             (Number 1) (opened 0 (Number 1)) in
  r.1 = Normal tt ∧ tags (editor r.2) = [js "a"; js "b"].
Proof.
  cbv zeta.
  destruct (loadEntry_parses_tags Sample.readJournalEntry Sample.new_Date
              (Number 1) Sample.entry (opened 0 (Number 1)) eq_refl)
    as [H _].
  apply H. apply (JSONFacts.stringify_array [js "a"; js "b"]).
Defined.

Lemma loadEntry_absent_keeps_draft_witness :
  let w := opened 0 (Number 2) in
  loadEntry_resume Sample.readJournalEntry Sample.new_Date (Number 2) w
    = (Normal tt, w) ∧
  let w1 := (read_settles Sample.readJournalEntry Sample.new_Date
               (load_effect w).2).2 in
  phase (editor w1) = Ready ∧
  date (editor w1) = TimeValue 0 ∧ title (editor w1) = js "" ∧
  body (editor w1) = js "" ∧ tags (editor w1) = [] ∧
  trace w1 = [ReadCall (Number 2)] ∧ suspended w1 = [].
Proof.
  cbv zeta.
  destruct (loadEntry_absent_keeps_draft Sample.readJournalEntry
              Sample.new_Date (Number 2) (opened 0 (Number 2)) 0 eq_refl)
    as [H1 H2].
  split; [exact H1 | apply H2; reflexivity].
Defined.

(** ** Examples *)

Example trim_padded : trim (js "  x  ") = js "x".
Proof. reflexivity. Qed.

Example trim_spaces : trim (js "   ") = js "".
Proof. reflexivity. Qed.

Example trim_line_ends : trim [10; 9; 160; 120; 32; 121; 8233; 13] = js "x y".
Proof. reflexivity. Qed.

Example includes_is_exact : includes [js "x"] (js " x") = false.
Proof. reflexivity. Qed.

Example parse_a_b : JSON.parse (jsq "['a','b']") = Some [js "a"; js "b"].
Proof. reflexivity. Qed.

Example parse_spaced_escaped :
  JSON.parse (jsq " [ 'a\u0041\n' , '' ] ") = Some [[97; 65; 10]; []].
Proof. reflexivity. Qed.

Example parse_trailing_comma : JSON.parse (jsq "['a',]") = None.
Proof. reflexivity. Qed.

Example stringify_a_b : JSON.stringify [js "a"; js "b"] = jsq "['a','b']".
Proof. reflexivity. Qed.

(** Adding the same tag twice: the second press alerts and changes
    nothing. *)
Example addTag_twice :
  let w := (addTag (js "x") (opened 0 Null)).2 in
  tags (editor (addTag (js "x") w).2) = [js "x"] ∧
  trace (addTag (js "x") w).2 = [Alert (js "Tag already exists")].
Proof. split; reflexivity. Qed.

(** A stored tag with a leading space (it can only come from the storage)
    blocks the same input, although the trimmed input is not in the list. *)
Example addTag_padded_stored :
  let w := (setTags [js " x"] (opened 0 Null)).2 in
  tags (editor (addTag (js " x") w).2) = [js " x"] ∧
  trace (addTag (js " x") w).2 = [Alert (js "Tag already exists")].
Proof. split; reflexivity. Qed.

(** Opening the stored entry: the form is shown before the read settles,
    and shows the stored fields afterwards. *)
Example open_stored_entry :
  let run := run Sample.readJournalEntry Sample.updateJournalEntry
               Sample.createJournalEntry Sample.new_Date Sample.ISO_text in
  let w1 := run [Mount] (opened 0 (Number 1)) in
  let w2 := run [Mount; ReadSettles] (opened 0 (Number 1)) in
  phase (editor w1) = Ready ∧ title (editor w1) = js "" ∧
  phase (editor w2) = Ready ∧ title (editor w2) = js "Monday" ∧
  body (editor w2) = js "Rain all day" ∧
  date (editor w2) = TimeValue 1714557600000 ∧
  tags (editor w2) = [js "a"; js "b"].
Proof. cbv zeta. split_and!; reflexivity. Qed.

(** Creating an entry: one call with the draft, then the navigation. *)
Example create_entry :
  let run := run Sample.readJournalEntry Sample.updateJournalEntry
               Sample.createJournalEntry Sample.new_Date Sample.ISO_text in
  trace (run [Mount; ChangeBody (js "hello"); AddTag (js "a"); PressSave]
           (opened 1714557600000 Null)) =
    [CreateCall
       {| Arg.id := None; Arg.date := js "2024-05-01T10:00:00.000Z";
          Arg.title := js ""; Arg.body := js "hello"; Arg.tags := [js "a"] |};
     Navigate (js "JournalScreen")].
Proof. reflexivity. Qed.

(** A draft whose date is invalid cannot be saved: the RangeError of
    [toISOString] is caught before any storage call. *)
Example save_invalid_date :
  let w := (setDate InvalidDate (opened 0 (Number 1))).2 in
  trace (onSave Sample.updateJournalEntry Sample.createJournalEntry
           Sample.ISO_text w).2 =
    [ConsoleError (js "Failed to save journal entry:")
       (RangeError (js "Invalid time value"))].
Proof. reflexivity. Qed.

(** * Further properties of the screen *)

(** ** Saving, beyond the update path *)

Section MoreSaveProperties.

Variable updateJournalEntry : Arg.t → Settled unit.
Variable createJournalEntry : Arg.t → Settled unit.
Variable ISO_text : Z → jsstring.

Local Abbreviation onSave :=
  (onSave updateJournalEntry createJournalEntry ISO_text).
Local Abbreviation save_failed_message :=
  (js "Failed to save journal entry:").

(** X1: on a draft without identifier whose body is not blank and whose
    date is valid, [onSave] calls [createJournalEntry] once, with the ISO
    text of the date, the title, the body and the tags and without an id; it
    never calls [updateJournalEntry] and raises no alert.  The navigation
    follows when the call is fulfilled, the console message when it is
    rejected. *)
Theorem onSave_creates_new (w : World) (t : Z) :
  let st := editor w in
  let entry :=
    {| Arg.id := None; Arg.date := ISO_text t;
       Arg.title := title st; Arg.body := body st; Arg.tags := tags st |} in
  ToBoolean (entryId st) = false →
  ¬ blank (body st) →
  date st = TimeValue t →
  onSave w =
    (Normal tt,
     log w [CreateCall entry;
            match createJournalEntry entry with
            | Fulfilled _ => Navigate (js "JournalScreen")
            | Rejected e => ConsoleError save_failed_message e
            end]).
Proof.
  cbv zeta. intros Hid Hb Hd. rewrite onSave_cases. cbv zeta.
  rewrite Hid, Hd.
  rewrite bool_decide_eq_false_2 by (by rewrite <- trim_blank).
  by destruct (createJournalEntry _).
Qed.

(** X2: a draft whose date is the invalid date is never sent to the
    storage.  When [onSave] gets as far as the date (an identifier, or a
    body that is not blank), the error of [toISOString] is caught: one
    console message, no storage call, no navigation, the state as it
    was. *)
Theorem onSave_invalid_date_is_logged (w : World) :
  date (editor w) = InvalidDate →
  ToBoolean (entryId (editor w)) = true ∨ ¬ blank (body (editor w)) →
  ∃ e, onSave w = (Normal tt, log w [ConsoleError save_failed_message e]).
Proof.
  intros Hd Hpath. rewrite onSave_cases. cbv zeta. rewrite Hd.
  destruct (ToBoolean (entryId (editor w))) eqn:Hid; [by eexists |].
  destruct Hpath as [? | Hb]; [done |].
  rewrite bool_decide_eq_false_2 by (by rewrite <- trim_blank).
  by eexists.
Qed.

(** X3: whatever the draft and whatever the storage answers, [onSave]
    never completes with an error (its promise is never rejected), never
    changes the component state, only adds to the trace, and adds at most one
    storage call, a write. *)
Theorem onSave_is_safe (w : World) :
  (∀ e, (onSave w).1 ≠ Throw e) ∧
  fire_and_forget onSave w = (Normal tt, (onSave w).2) ∧
  editor (onSave w).2 = editor w ∧
  suspended (onSave w).2 = suspended w ∧
  ∃ new,
    trace (onSave w).2 = trace w ++ new ∧
    (count is_write new ≤ 1)%nat ∧
    count is_read new = 0%nat ∧
    count is_unhandled new = 0%nat.
Proof.
  unfold fire_and_forget. rewrite onSave_cases. cbv zeta.
  destruct (ToBoolean _).
  - destruct (date _); [destruct (updateJournalEntry _) as [[]|] |];
      (split_and!; [done .. |]); eexists; (split; [reflexivity |]);
      cbv; split_and!; lia.
  - destruct (bool_decide _).
    + (split_and!; [done .. |]); eexists; (split; [reflexivity |]);
        cbv; split_and!; lia.
    + destruct (date _); [destruct (createJournalEntry _) as [[]|] |];
        (split_and!; [done .. |]); eexists; (split; [reflexivity |]);
        cbv; split_and!; lia.
Qed.

(** X4: [onSave] leaves the screen only after a storage call that was
    fulfilled: when its effects contain a navigation, the navigation goes to
    JournalScreen and comes right after the one write call of the attempt,
    which the storage fulfilled. *)
Theorem onSave_navigates_only_after_success (w : World) (new : list Event)
    (screen : jsstring) :
  trace (onSave w).2 = trace w ++ new →
  Navigate screen ∈ new →
  screen = js "JournalScreen" ∧
  ∃ entry,
    (new = [UpdateCall entry; Navigate screen] ∧
     updateJournalEntry entry = Fulfilled tt) ∨
    (new = [CreateCall entry; Navigate screen] ∧
     createJournalEntry entry = Fulfilled tt).
Proof.
  rewrite onSave_cases. cbv zeta. intros Hnew Hin.
  assert (∀ x y : Event, x ∈ [y] → x = y) as one
    by (by intros x y ?%list_elem_of_singleton).
  assert (∀ x y z : Event, x ∈ [y; z] → x = y ∨ x = z) as two
    by (intros x y z [->|?%list_elem_of_singleton]%elem_of_cons; auto).
  destruct (ToBoolean (entryId (editor w))).
  - destruct (date (editor w)) as [t|]; simpl in *.
    + destruct (updateJournalEntry _) as [[]|e1] eqn:Hu; simpl in *;
        apply app_inv_head in Hnew; subst new;
        apply two in Hin as [Hin | Hin]; try done.
      injection Hin as ->. split; [done |]. eexists. left. by split.
    + apply app_inv_head in Hnew; subst new. by apply one in Hin.
  - destruct (bool_decide (trim (body (editor w)) = js "")); simpl in *.
    + apply app_inv_head in Hnew; subst new. by apply one in Hin.
    + destruct (date (editor w)) as [t|]; simpl in *.
      * destruct (createJournalEntry _) as [[]|e1] eqn:Hu; simpl in *;
          apply app_inv_head in Hnew; subst new;
          apply two in Hin as [Hin | Hin]; try done.
        injection Hin as ->. split; [done |]. eexists. right. by split.
      * apply app_inv_head in Hnew; subst new. by apply one in Hin.
Qed.

End MoreSaveProperties.

(** ** Tags, composed *)

Lemma trimStart_fixed c t :
  is_whitespace c = false → trimStart (c :: t) = c :: t.
Proof. intros Hc. simpl. by rewrite Hc. Qed.

Lemma trimEnd_fixed s c :
  last s = Some c → is_whitespace c = false → trimEnd s = s.
Proof.
  destruct s as [|d l _] using rev_ind; [done |].
  rewrite last_snoc. intros [= ->] Hc.
  unfold trimEnd. rewrite reverse_snoc, (trimStart_fixed _ _ Hc).
  by rewrite reverse_cons, reverse_involutive.
Qed.

(** Trimming a trimmed string changes nothing. *)
Lemma trim_idempotent s : trim (trim s) = trim s.
Proof.
  destruct (trim_spec s) as (_ & _ & _ & _ & _ & Hhead & Hlast).
  destruct (trim s) as [|c t] eqn:E; [done |].
  unfold trim. rewrite (trimStart_fixed _ _ (Hhead c t eq_refl)).
  destruct (last (c :: t)) as [d|] eqn:El.
  - apply (trimEnd_fixed _ d El). by apply Hlast.
  - by apply last_None in El.
Qed.

Lemma deleteTag_world tag w :
  deleteTag tag w = setTags (filter (λ t, t ≠ tag) (tags (editor w))) w.
Proof. done. Qed.

(** X5: adding a tag that is written in its stored form (not empty, no
    white space around it) puts it in the list, and adding it again changes
    no tag and raises the alert. *)
Theorem addTag_repeated (tag : jsstring) (w : World) :
  stored_form tag →
  let w1 := (addTag tag w).2 in
  tag ∈ tags (editor w1) ∧
  tags (editor (addTag tag w1).2) = tags (editor w1) ∧
  trace (addTag tag w1).2 = trace w1 ++ [Alert (js "Tag already exists")].
Proof.
  intros [Ht Hne]. cbv zeta.
  assert (tag ∈ tags (editor (addTag tag w).2)) as Hin.
  { rewrite addTag_tags, Ht, (bool_decide_eq_false_2 _ Hne).
    unfold includes. case_bool_decide as Hin; [done |].
    apply elem_of_app. right. by apply list_elem_of_singleton. }
  split_and!; [done | |].
  - rewrite addTag_tags, Ht, (bool_decide_eq_false_2 _ Hne).
    unfold includes. by rewrite (bool_decide_eq_true_2 _ Hin).
  - rewrite (addTag_cases tag (addTag tag w).2). cbv zeta.
    rewrite Ht, (bool_decide_eq_false_2 _ Hne).
    unfold includes. by rewrite (bool_decide_eq_true_2 _ Hin).
Qed.

Lemma addTag_repeated_witness :
  let w1 := (addTag (js "work") (opened 0 Null)).2 in
  js "work" ∈ tags (editor w1) ∧
  tags (editor (addTag (js "work") w1).2) = tags (editor w1) ∧
  trace (addTag (js "work") w1).2
    = trace w1 ++ [Alert (js "Tag already exists")].
Proof.
  apply (addTag_repeated (js "work") (opened 0 Null)).
  split; [reflexivity | discriminate].
Defined.

(** X6: deleting a tag that was just added gives back the tags there were
    before, when the tag was new to the list: the input as typed was not in
    the list (so it was appended) nor was its trimmed form (so the deletion
    removes nothing else). *)
Theorem deleteTag_undoes_addTag (tag : jsstring) (w : World) :
  trim tag ≠ js "" →
  tag ∉ tags (editor w) →
  trim tag ∉ tags (editor w) →
  tags (editor (deleteTag (trim tag) (addTag tag w).2).2) = tags (editor w).
Proof.
  intros Hne Hin Hint.
  rewrite deleteTag_tags, addTag_tags, (bool_decide_eq_false_2 _ Hne).
  unfold includes. rewrite (bool_decide_eq_false_2 _ Hin).
  rewrite filter_app, (filter_ne_id _ _ Hint).
  rewrite filter_cons_False by (intros H; exact (H eq_refl)).
  by rewrite filter_nil, app_nil_r.
Qed.

Lemma deleteTag_undoes_addTag_witness :
  let w := (addTag (js "home") (opened 0 Null)).2 in
  tags (editor (deleteTag (trim (js " work ")) (addTag (js " work ") w).2).2)
    = tags (editor w).
Proof.
  apply (deleteTag_undoes_addTag (js " work ")
           (addTag (js "home") (opened 0 Null)).2).
  - discriminate.
  - intros [E | E%not_elem_of_nil]%elem_of_cons; [discriminate | done].
  - intros [E | E%not_elem_of_nil]%elem_of_cons; [discriminate | done].
Defined.

(** X7: deleting the same tag twice is deleting it once, and two deletions
    give the same screen in either order. *)
Theorem deleteTag_composes (a b : jsstring) (w : World) :
  deleteTag a (deleteTag a w).2 = deleteTag a w ∧
  deleteTag a (deleteTag b w).2 = deleteTag b (deleteTag a w).2.
Proof.
  rewrite !deleteTag_world. unfold setTags, modify. simpl. split.
  - do 3 f_equal. apply list_filter_filter_l. done.
  - do 3 f_equal. rewrite !list_filter_filter.
    apply list_filter_iff. intros x. split; intros [? ?]; by split.
Qed.

(** X8: in every case [addTag] completes normally and closes the tag
    modal; of the component state it touches nothing but the tags and the
    modal flag; its only possible effect is the alert, and when it alerts it
    stores nothing. *)
Theorem addTag_closes_modal (tag : jsstring) (w : World) :
  let st := editor w in
  let w1 := (addTag tag w).2 in
  let st1 := editor w1 in
  (addTag tag w).1 = Normal tt ∧
  tagModalVisible st1 = false ∧
  date st1 = date st ∧ title st1 = title st ∧ body st1 = body st ∧
  showDatePicker st1 = showDatePicker st ∧ entryId st1 = entryId st ∧
  loading st1 = loading st ∧ isKeyboardOpen st1 = isKeyboardOpen st ∧
  suspended w1 = suspended w ∧
  ((trace w1 = trace w) ∨
   (trace w1 = trace w ++ [Alert (js "Tag already exists")] ∧
    tags st1 = tags st)).
Proof.
  cbv zeta. rewrite addTag_cases. cbv zeta.
  destruct (bool_decide (trim tag = js "")); [split_and!; try done; by left |].
  destruct (includes (tags (editor w)) tag).
  - split_and!; try done. by right.
  - split_and!; try done. by left.
Qed.

(** X9: the tags keep their stored form.  Along every run in which no read
    settles (tags then come from the storage as they are), when every tag of
    the draft is non-empty and free of surrounding white space, so is every
    tag afterwards: whatever the user types, [addTag] stores no empty tag
    and no padded one. *)
Theorem run_tags_stored_form
    (readJournalEntry : JsValue → Settled (option Entry.t))
    (updateJournalEntry createJournalEntry : Arg.t → Settled unit)
    (new_Date : jsstring → JsDate) (ISO_text : Z → jsstring)
    (actions : list Action) (w : World) :
  ReadSettles ∉ actions →
  Forall stored_form (tags (editor w)) →
  Forall stored_form
    (tags (editor (run readJournalEntry updateJournalEntry createJournalEntry
                     new_Date ISO_text actions w))).
Proof.
  revert w. induction actions as [|a actions IH]; intros w Hno Hall; [done |].
  apply not_elem_of_cons in Hno as [Ha Hno].
  apply (IH _ Hno). clear IH Hno.
  destruct a; unfold step; cbn [handle]; try done.
  - by rewrite load_effect_tags.
  - by rewrite onSave_editor.
  - rewrite addTag_tags.
    destruct (bool_decide (trim tag = js "")) eqn:E; [done |].
    destruct (includes (tags (editor w)) tag); [done |].
    apply Forall_app. split; [done |]. apply Forall_singleton.
    split; [apply trim_idempotent | by apply bool_decide_eq_false in E].
  - rewrite deleteTag_tags. apply Forall_forall.
    intros x [_ Hx]%list_elem_of_filter.
    by apply (proj1 (Forall_forall _ _) Hall).
  - by destruct selectedDate.
Qed.

Lemma run_tags_stored_form_witness :
  Forall stored_form
    (tags (editor (run Sample.readJournalEntry Sample.updateJournalEntry
                     Sample.createJournalEntry Sample.new_Date Sample.ISO_text
                     [Mount; AddTag (js "  a "); AddTag (js "   ");
                      DeleteTag (js "b"); PressSave]
                     (opened 0 Null)))).
Proof.
  apply run_tags_stored_form.
  - intros H. repeat (apply elem_of_cons in H as [H | H]; [discriminate |]).
    by apply not_elem_of_nil in H.
  - constructor.
Defined.

(** ** Loading, beyond the happy path *)

Lemma not_json_parse text : not_json text → JSON.parse text = None.
Proof.
  unfold not_json, JSON.parse, JSON.parse_array.
  destruct (JSON.skip_ws text) as [|c r]; [done |].
  unfold starts_value. intros H.
  destruct (N.eqb_spec c 91) as [-> | Hc]; [done | done].
Qed.

Section MoreLoadProperties.

Variable readJournalEntry : JsValue → Settled (option Entry.t).
Variable new_Date : jsstring → JsDate.

Local Abbreviation loadEntry_resume :=
  (loadEntry_resume readJournalEntry new_Date).
Local Abbreviation read_settles := (read_settles readJournalEntry new_Date).

(** X10: when the read is rejected, [loadEntry] has no handler for it: the
    call ends there, with the error left to the promise nobody awaits.  The
    screen shows no alert and writes nothing to the console, and the draft
    and the loading flag stay as they were. *)
Theorem rejected_read_leaves_draft (id : JsValue) (rest : list JsValue)
    (w : World) (e : JsError) :
  suspended w = id :: rest →
  readJournalEntry id = Rejected e →
  read_settles w =
    (Normal tt,
     {| editor := editor w; trace := trace w ++ [UnhandledRejection e];
        suspended := rest |}).
Proof.
  intros Hs Hr. unfold read_settles. rewrite Hs.
  unfold fire_and_forget, loadEntry_resume. by rewrite Hr.
Qed.

(** X11: a stored entry whose tag text is no JSON is loaded in part.  The
    date, the title and the body are set from the entry before [JSON.parse]
    raises its error; the tags stay what they were, nothing is reported by
    the screen, and the error leaves [loadEntry] unhandled. *)
Theorem malformed_tags_load_in_part (id : JsValue) (entry : Entry.t)
    (w : World) :
  readJournalEntry id = Fulfilled (Some entry) →
  not_json (Entry.tags entry) →
  let r := loadEntry_resume id w in
  (∃ e, r.1 = Throw e) ∧
  date (editor r.2) = new_Date (Entry.date entry) ∧
  title (editor r.2) = Entry.title entry ∧
  body (editor r.2) = Entry.body entry ∧
  tags (editor r.2) = tags (editor w) ∧
  trace r.2 = trace w.
Proof.
  intros Hr Hp%not_json_parse. cbv zeta.
  unfold loadEntry_resume, JSON_parse. rewrite Hr.
  run_handler. cbv beta iota. rewrite Hp. cbn.
  split_and!; try done. by eexists.
Qed.

(** X12: a tag list written with [JSON.stringify] is read back as it was:
    when the tag text of the stored entry is the JSON text of a list of
    strings, whatever characters they hold, [loadEntry] completes and the
    tags of the draft are that list. *)
Theorem stringified_tags_load_back (id : JsValue) (entry : Entry.t)
    (l : list jsstring) (w : World) :
  readJournalEntry id = Fulfilled (Some entry) →
  Entry.tags entry = JSON.stringify l →
  (loadEntry_resume id w).1 = Normal tt ∧
  tags (editor (loadEntry_resume id w).2) = l.
Proof.
  intros Hr Ht.
  assert (JSON.parse (Entry.tags entry) = Some l) as Hp
    by (rewrite Ht; apply JSONFacts.parse_stringify).
  by rewrite (loadEntry_resume_found _ _ _ _ _ _ Hr Hp).
Qed.

End MoreLoadProperties.

(** ** Runs of the screen *)

Lemma count_app kind tr1 tr2 :
  count kind (tr1 ++ tr2) = (count kind tr1 + count kind tr2)%nat.
Proof. unfold count. by rewrite filter_app, length_app. Qed.

Section RunProperties.

Variable readJournalEntry : JsValue → Settled (option Entry.t).
Variable updateJournalEntry : Arg.t → Settled unit.
Variable createJournalEntry : Arg.t → Settled unit.
Variable new_Date : jsstring → JsDate.
Variable ISO_text : Z → jsstring.

Local Abbreviation onSave :=
  (onSave updateJournalEntry createJournalEntry ISO_text).
Local Abbreviation read_settles := (read_settles readJournalEntry new_Date).
Local Abbreviation step :=
  (step readJournalEntry updateJournalEntry createJournalEntry
     new_Date ISO_text).
Local Abbreviation run :=
  (run readJournalEntry updateJournalEntry createJournalEntry
     new_Date ISO_text).

(** What pressing save leaves behind: the state as it was and at most one
    write in the trace. *)
Lemma press_save_frame w :
  ∃ new,
    fire_and_forget onSave w = (Normal tt, log w new) ∧
    (count is_write new ≤ 1)%nat ∧ count is_read new = 0%nat.
Proof.
  unfold fire_and_forget. rewrite onSave_cases. cbv zeta.
  destruct (ToBoolean _).
  - destruct (date _); [destruct (updateJournalEntry _) as [[]|] |];
      eexists; (split; [reflexivity |]); cbv; lia.
  - destruct (bool_decide _).
    + eexists; (split; [reflexivity |]); cbv; lia.
    + destruct (date _); [destruct (createJournalEntry _) as [[]|] |];
        eexists; (split; [reflexivity |]); cbv; lia.
Qed.

(** What the second half of [loadEntry] leaves untouched. *)
Lemma read_settles_frame w :
  loading (editor (read_settles w).2) = loading (editor w) ∧
  entryId (editor (read_settles w).2) = entryId (editor w) ∧
  ∃ new,
    trace (read_settles w).2 = trace w ++ new ∧
    count is_write new = 0%nat ∧ count is_read new = 0%nat.
Proof.
  unfold read_settles. destruct (suspended w) as [|id rest].
  { split_and!; try done. exists []. by rewrite app_nil_r. }
  unfold fire_and_forget, loadEntry_resume, JSON_parse.
  destruct (readJournalEntry id) as [[entry|]|e]; run_handler; cbv beta iota.
  - destruct (JSON.parse (Entry.tags entry)); cbn.
    + split_and!; try done. exists []. by rewrite app_nil_r.
    + split_and!; try done. by eexists.
  - cbn. split_and!; try done. exists []. by rewrite app_nil_r.
  - cbn. split_and!; try done. by eexists.
Qed.

(** One step, on the flags and on the trace. *)
Lemma step_frame w a :
  entryId (editor (step w a)) = entryId (editor w) ∧
  (loading (editor w) = false ∨ is_mount a = true →
   loading (editor (step w a)) = false) ∧
  ∃ new,
    trace (step w a) = trace w ++ new ∧
    (count is_write new ≤ if is_press_save a then 1 else 0)%nat ∧
    (count is_read new ≤
       if is_mount a && ToBoolean (entryId (editor w)) then 1 else 0)%nat.
Proof.
  assert (∀ tr : list Event, tr = tr ++ []) as nil_r
    by (intros; by rewrite app_nil_r).
  destruct a; unfold step; cbn [handle is_mount is_press_save andb].
  - unfold load_effect. run_handler. cbn.
    destruct (ToBoolean (entryId (editor w))); cbn.
    + split_and!; try done. eexists. split; [done |]. cbv. lia.
    + split_and!; try done. exists []. split; [apply nil_r |]. cbv. lia.
  - destruct (read_settles_frame w) as (Hl & Hid & new & Ht & Hw & Hr).
    split_and!; [done | |].
    + rewrite Hl. by intros [? | ?].
    + exists new. split; [done |]. lia.
  - destruct (press_save_frame w) as (new & -> & Hw & Hr).
    split_and!; [done | by intros [? | ?] |].
    exists new. split; [done |]. lia.
  - rewrite addTag_cases. cbv zeta.
    destruct (bool_decide _);
      [| destruct (includes _ _)];
      (split_and!; [done | by intros [? | ?] |]).
    + exists []. split; [apply nil_r |]. cbv. lia.
    + eexists. split; [done |]. cbv. lia.
    + exists []. split; [apply nil_r |]. cbv. lia.
  - split_and!; [done | by intros [? | ?] |].
    exists []. split; [apply nil_r |]. cbv. lia.
  - split_and!; [done | by intros [? | ?] |].
    exists []. split; [apply nil_r |]. cbv. lia.
  - split_and!; [done | by intros [? | ?] |].
    exists []. split; [apply nil_r |]. cbv. lia.
  - split_and!; [done | by intros [? | ?] |].
    exists []. split; [apply nil_r |]. cbv. lia.
  - destruct selectedDate; (split_and!; [done | by intros [? | ?] |]);
      exists []; (split; [apply nil_r |]); cbv; lia.
  - split_and!; [done | by intros [? | ?] |].
    exists []. split; [apply nil_r |]. cbv. lia.
  - split_and!; [done | by intros [? | ?] |].
    exists []. split; [apply nil_r |]. cbv. lia.
  - split_and!; [done | by intros [? | ?] |].
    exists []. split; [apply nil_r |]. cbv. lia.
  - split_and!; [done | by intros [? | ?] |].
    exists []. split; [apply nil_r |]. cbv. lia.
Qed.

Lemma run_entryId actions w :
  entryId (editor (run actions w)) = entryId (editor w).
Proof.
  revert w. induction actions as [|a actions IH]; intros w; [done |].
  change (run (a :: actions) w) with (run actions (step w a)).
  rewrite IH. apply step_frame.
Qed.

Lemma run_loading actions w :
  loading (editor w) = false → loading (editor (run actions w)) = false.
Proof.
  revert w. induction actions as [|a actions IH]; intros w Hl; [done |].
  change (run (a :: actions) w) with (run actions (step w a)).
  apply IH. apply step_frame. by left.
Qed.

(** X13: once the effect has run, the form is shown for good: whatever
    happens afterwards (a read that settles, a save, edits, the effect
    again), the screen never goes back to the activity indicator. *)
Theorem form_stays_shown (actions : list Action) (w : World) :
  phase (editor (run (Mount :: actions) w)) = Ready.
Proof.
  unfold phase.
  change (run (Mount :: actions) w) with (run actions (step w Mount)).
  rewrite run_loading; [done |]. apply step_frame. by right.
Qed.

(** X14: the screen writes to the storage only when save is pressed, and at
    most once for each press; it reads from the storage only from the effect,
    at most once for each run of it, and never when it was opened without
    identifier. *)
Theorem run_storage_calls_bounded (actions : list Action) (w : World) :
  (count is_write (trace (run actions w))
   ≤ count is_write (trace w)
     + length (filter (λ a, is_press_save a = true) actions))%nat ∧
  (count is_read (trace (run actions w))
   ≤ count is_read (trace w)
     + if ToBoolean (entryId (editor w))
       then length (filter (λ a, is_mount a = true) actions) else 0)%nat.
Proof.
  revert w. induction actions as [|a actions IH]; intros w.
  { cbn. destruct (ToBoolean _); lia. }
  change (run (a :: actions) w) with (run actions (step w a)).
  destruct (IH (step w a)) as [IHw IHr].
  destruct (step_frame w a) as (Hid & _ & new & Ht & Hw & Hr).
  rewrite Hid in IHr. rewrite Ht, !count_app in IHw, IHr.
  rewrite !filter_cons.
  destruct a; cbn [is_press_save is_mount andb] in *;
    repeat case_decide; try done; cbn [length];
    destruct (ToBoolean (entryId (editor w))); lia.
Qed.

End RunProperties.

(** ** Edits made before the read settles *)

Section LateRead.

Variable readJournalEntry : JsValue → Settled (option Entry.t).
Variable updateJournalEntry : Arg.t → Settled unit.
Variable createJournalEntry : Arg.t → Settled unit.
Variable new_Date : jsstring → JsDate.
Variable ISO_text : Z → jsstring.

Local Abbreviation step :=
  (step readJournalEntry updateJournalEntry createJournalEntry
     new_Date ISO_text).
Local Abbreviation run :=
  (run readJournalEntry updateJournalEntry createJournalEntry
     new_Date ISO_text).

Lemma step_user_suspended w a :
  is_user_action a = true → suspended (step w a) = suspended w.
Proof.
  destruct a; unfold step; cbn [handle is_user_action]; try done.
  - intros _.
    by destruct (press_save_frame updateJournalEntry createJournalEntry
                   ISO_text w) as (new & -> & _).
  - intros _. rewrite addTag_cases. cbv zeta.
    destruct (bool_decide _); [done |]. by destruct (includes _ _).
  - by destruct selectedDate.
Qed.

Lemma run_user_suspended edits w :
  Forall (λ a, is_user_action a = true) edits →
  suspended (run edits w) = suspended w.
Proof.
  intros Hall. revert w.
  induction Hall as [|a edits Ha _ IH]; intros w; [done |].
  change (run (a :: edits) w) with (run edits (step w a)).
  by rewrite IH, step_user_suspended.
Qed.

(** X15: what the user does on the form before the read settles is lost.
    The form is shown as soon as the effect has run; when the stored entry
    arrives, its date, title, body and tags replace those of the draft,
    whatever was typed, added or deleted in between. *)
Theorem settled_read_replaces_edits (now : Z) (id : JsValue)
    (entry : Entry.t) (l : list jsstring) (edits : list Action) :
  ToBoolean id = true →
  readJournalEntry id = Fulfilled (Some entry) →
  JSON.array (Entry.tags entry) l →
  Forall (λ a, is_user_action a = true) edits →
  let w := run (Mount :: edits ++ [ReadSettles]) (opened now id) in
  phase (editor w) = Ready ∧
  date (editor w) = new_Date (Entry.date entry) ∧
  title (editor w) = Entry.title entry ∧
  body (editor w) = Entry.body entry ∧
  tags (editor w) = l.
Proof.
  intros Hid Hr Hl%JSONFacts.parse_sound Hall. cbv zeta.
  change (run (Mount :: edits ++ [ReadSettles]) (opened now id))
    with (run (edits ++ [ReadSettles]) (step (opened now id) Mount)).
  assert (suspended (step (opened now id) Mount) = [id] ∧
          loading (editor (step (opened now id) Mount)) = false) as [Hs0 Hl0].
  { unfold step. cbn [handle]. unfold load_effect. run_handler. cbn.
    by rewrite Hid. }
  set (w0 := step (opened now id) Mount) in *.
  assert (run (edits ++ [ReadSettles]) w0 = step (run edits w0) ReadSettles)
    as -> by (unfold run; by rewrite foldl_app).
  pose proof (run_user_suspended edits w0 Hall) as Hs1. rewrite Hs0 in Hs1.
  pose proof (run_loading readJournalEntry updateJournalEntry
                createJournalEntry new_Date ISO_text edits w0 Hl0) as Hl1.
  set (w1 := run edits w0) in *.
  unfold step. cbn [handle]. unfold read_settles. rewrite Hs1.
  unfold fire_and_forget.
  rewrite (loadEntry_resume_found _ _ _ _ _ _ Hr Hl). cbn.
  unfold phase. cbn. by rewrite Hl1.
Qed.

End LateRead.

(** ** Opening an entry and saving it *)

(** X16: saving an entry right after it was loaded writes back what was
    loaded.  On a screen opened with an identifier whose stored entry has a
    readable date and a JSON tag list, the effect, the settled read and one
    press on save give one read and one update, and the update carries the
    identifier, the stored title and body, the tags of the stored list and
    the ISO text of the stored date as the platform reads and prints it. *)
Theorem load_then_save_writes_back
    (readJournalEntry : JsValue → Settled (option Entry.t))
    (updateJournalEntry createJournalEntry : Arg.t → Settled unit)
    (new_Date : jsstring → JsDate) (ISO_text : Z → jsstring)
    (now t : Z) (id : JsValue) (entry : Entry.t) (l : list jsstring) :
  ToBoolean id = true →
  readJournalEntry id = Fulfilled (Some entry) →
  JSON.array (Entry.tags entry) l →
  new_Date (Entry.date entry) = TimeValue t →
  let written :=
    {| Arg.id := Some id; Arg.date := ISO_text t;
       Arg.title := Entry.title entry; Arg.body := Entry.body entry;
       Arg.tags := l |} in
  trace (run readJournalEntry updateJournalEntry createJournalEntry
           new_Date ISO_text [Mount; ReadSettles; PressSave] (opened now id))
  = [ReadCall id; UpdateCall written;
     match updateJournalEntry written with
     | Fulfilled _ => Navigate (js "JournalScreen")
     | Rejected e => ConsoleError (js "Failed to save journal entry:") e
     end].
Proof.
  intros Hid Hr Hl%JSONFacts.parse_sound Hd. cbv zeta.
  unfold run. cbn [foldl].
  assert (step readJournalEntry updateJournalEntry createJournalEntry
            new_Date ISO_text (opened now id) Mount =
          {| editor := editor (setLoading false (opened now id)).2;
             trace := [ReadCall id]; suspended := [id] |}) as ->.
  { unfold step. cbn [handle]. unfold load_effect. run_handler. cbn.
    by rewrite Hid. }
  match goal with
  | |- context [step _ _ _ _ _ ?w0 ReadSettles] =>
      assert (step readJournalEntry updateJournalEntry createJournalEntry
                new_Date ISO_text w0 ReadSettles =
              {| editor :=
                   {| date := new_Date (Entry.date entry);
                      title := Entry.title entry; body := Entry.body entry;
                      tags := l; tagModalVisible := false;
                      showDatePicker := false; entryId := id;
                      loading := false; isKeyboardOpen := false |};
                 trace := [ReadCall id]; suspended := [] |}) as ->
  end.
  { unfold step. cbn [handle]. unfold read_settles. cbn [suspended].
    unfold fire_and_forget.
    by rewrite (loadEntry_resume_found _ _ _ _ _ _ Hr Hl). }
  unfold step. cbn [handle]. unfold fire_and_forget.
  rewrite onSave_cases. cbv zeta. cbn [editor entryId date].
  rewrite Hid, Hd. by destruct (updateJournalEntry _).
Qed.

(** ** The further properties on the sample storage *)

Lemma onSave_creates_new_witness :
  let w := (setBody (js "Rain") (opened 1714557600000 Null)).2 in
  onSave Sample.updateJournalEntry Sample.createJournalEntry Sample.ISO_text w
  = (Normal tt,
     log w [CreateCall
              {| Arg.id := None; Arg.date := js "2024-05-01T10:00:00.000Z";
                 Arg.title := js ""; Arg.body := js "Rain"; Arg.tags := [] |};
            Navigate (js "JournalScreen")]).
Proof.
  apply (onSave_creates_new Sample.updateJournalEntry
           Sample.createJournalEntry Sample.ISO_text
           (setBody (js "Rain") (opened 1714557600000 Null)).2
           1714557600000).
  - reflexivity.
  - intros H%trim_blank. discriminate.
  - reflexivity.
Defined.

Lemma onSave_invalid_date_is_logged_witness :
  let w := (setDate InvalidDate (opened 0 (Number 1))).2 in
  ∃ e,
    onSave Sample.updateJournalEntry Sample.createJournalEntry
      Sample.ISO_text w
    = (Normal tt,
       log w [ConsoleError (js "Failed to save journal entry:") e]).
Proof.
  apply (onSave_invalid_date_is_logged Sample.updateJournalEntry
           Sample.createJournalEntry Sample.ISO_text
           (setDate InvalidDate (opened 0 (Number 1))).2).
  - reflexivity.
  - left. reflexivity.
Defined.

Lemma onSave_navigates_only_after_success_witness :
  let entry :=
    {| Arg.id := Some (Number 1); Arg.date := js "1970-01-01T00:00:00.000Z";
       Arg.title := js ""; Arg.body := js ""; Arg.tags := [] |} in
  js "JournalScreen" = js "JournalScreen" ∧
  ∃ entry0,
    ([UpdateCall entry; Navigate (js "JournalScreen")]
       = [UpdateCall entry0; Navigate (js "JournalScreen")] ∧
     Sample.updateJournalEntry entry0 = Fulfilled tt) ∨
    ([UpdateCall entry; Navigate (js "JournalScreen")]
       = [CreateCall entry0; Navigate (js "JournalScreen")] ∧
     Sample.createJournalEntry entry0 = Fulfilled tt).
Proof.
  cbv zeta.
  apply (onSave_navigates_only_after_success Sample.updateJournalEntry
           Sample.createJournalEntry Sample.ISO_text (opened 0 (Number 1))).
  - reflexivity.
  - apply list_elem_of_further, list_elem_of_here.
Defined.

Lemma rejected_read_leaves_draft_witness :
  let w := (load_effect (opened 0 (Number 1))).2 in
  read_settles Faulty.readJournalEntry Sample.new_Date w
  = (Normal tt,
     {| editor := editor w;
        trace := trace w ++ [UnhandledRejection (Rejection (js "no such table"))];
        suspended := [] |}).
Proof.
  apply (rejected_read_leaves_draft Faulty.readJournalEntry Sample.new_Date
           (Number 1) [] (load_effect (opened 0 (Number 1))).2);
    reflexivity.
Defined.

Lemma malformed_tags_load_in_part_witness :
  let w := opened 0 (Number 2) in
  let r := loadEntry_resume Faulty.readJournalEntry Sample.new_Date
             (Number 2) w in
  (∃ e, r.1 = Throw e) ∧
  date (editor r.2) = Sample.new_Date (Entry.date Faulty.entry) ∧
  title (editor r.2) = js "Tuesday" ∧
  body (editor r.2) = js "Sun" ∧
  tags (editor r.2) = [] ∧
  trace r.2 = [].
Proof.
  apply (malformed_tags_load_in_part Faulty.readJournalEntry Sample.new_Date
           (Number 2) Faulty.entry (opened 0 (Number 2)));
    reflexivity.
Defined.

Lemma stringified_tags_load_back_witness :
  let r := loadEntry_resume Sample.readJournalEntry Sample.new_Date
             (Number 1) (opened 0 (Number 1)) in
  r.1 = Normal tt ∧ tags (editor r.2) = [js "a"; js "b"].
Proof.
  apply (stringified_tags_load_back Sample.readJournalEntry Sample.new_Date
           (Number 1) Sample.entry [js "a"; js "b"] (opened 0 (Number 1)));
    reflexivity.
Defined.

Lemma settled_read_replaces_edits_witness :
  let w := run Sample.readJournalEntry Sample.updateJournalEntry
             Sample.createJournalEntry Sample.new_Date Sample.ISO_text
             (Mount :: [ChangeTitle (js "draft"); AddTag (js "z")]
                ++ [ReadSettles])
             (opened 0 (Number 1)) in
  phase (editor w) = Ready ∧
  date (editor w) = Sample.new_Date (Entry.date Sample.entry) ∧
  title (editor w) = js "Monday" ∧
  body (editor w) = js "Rain all day" ∧
  tags (editor w) = [js "a"; js "b"].
Proof.
  apply (settled_read_replaces_edits Sample.readJournalEntry
           Sample.updateJournalEntry Sample.createJournalEntry
           Sample.new_Date Sample.ISO_text 0 (Number 1) Sample.entry
           [js "a"; js "b"] [ChangeTitle (js "draft"); AddTag (js "z")]).
  - reflexivity.
  - reflexivity.
  - apply (JSONFacts.stringify_array [js "a"; js "b"]).
  - repeat constructor.
Defined.

Lemma load_then_save_writes_back_witness :
  trace (run Sample.readJournalEntry Sample.updateJournalEntry
           Sample.createJournalEntry Sample.new_Date Sample.ISO_text
           [Mount; ReadSettles; PressSave] (opened 0 (Number 1)))
  = [ReadCall (Number 1);
     UpdateCall
       {| Arg.id := Some (Number 1);
          Arg.date := js "2024-05-01T10:00:00.000Z";
          Arg.title := js "Monday"; Arg.body := js "Rain all day";
          Arg.tags := [js "a"; js "b"] |};
     Navigate (js "JournalScreen")].
Proof.
  apply (load_then_save_writes_back Sample.readJournalEntry
           Sample.updateJournalEntry Sample.createJournalEntry
           Sample.new_Date Sample.ISO_text 0 1714557600000 (Number 1)
           Sample.entry [js "a"; js "b"]).
  - reflexivity.
  - reflexivity.
  - apply (JSONFacts.stringify_array [js "a"; js "b"]).
  - reflexivity.
Defined.

(** ** The tags stay distinct on a storage of distinct tags *)

(** X17: on a storage whose entries all hold their tags as a JSON text of
    an array of pairwise distinct strings, along every run in which each
    added tag is typed without surrounding white space, a draft whose tags
    are pairwise distinct keeps them pairwise distinct, whatever else happens
    (reads that settle, deletions, edits, saves). *)
Theorem run_keeps_tags_distinct
    (readJournalEntry : JsValue → Settled (option Entry.t))
    (updateJournalEntry createJournalEntry : Arg.t → Settled unit)
    (new_Date : jsstring → JsDate) (ISO_text : Z → jsstring)
    (actions : list Action) (w : World) :
  stores_distinct_tags readJournalEntry →
  Forall typed_unpadded actions →
  NoDup (tags (editor w)) →
  NoDup
    (tags (editor (run readJournalEntry updateJournalEntry createJournalEntry
                     new_Date ISO_text actions w))).
Proof.
  intros Hstore Hall. apply run_NoDup.
  apply (Forall_impl _ _ _ Hall). intros a Ha.
  destruct a; try done.
  intros id entry l Hr Hp.
  destruct (Hstore id entry Hr) as (l1 & Hl1%JSONFacts.parse_sound & Hnd).
  rewrite Hp in Hl1. by injection Hl1 as ->.
Qed.

Lemma sample_stores_distinct_tags :
  stores_distinct_tags Sample.readJournalEntry.
Proof.
  intros id entry Hr. exists [js "a"; js "b"].
  assert (entry = Sample.entry) as ->.
  { destruct id as [|n|s]; try discriminate.
    destruct n as [|[p|p|]|p]; try discriminate.
    by injection Hr as <-. }
  split.
  - apply (JSONFacts.stringify_array [js "a"; js "b"]).
  - apply NoDup_cons. split.
    + intros [E | E%not_elem_of_nil]%elem_of_cons; [discriminate | done].
    + apply NoDup_singleton.
Defined.

Lemma run_keeps_tags_distinct_witness :
  NoDup
    (tags (editor (run Sample.readJournalEntry Sample.updateJournalEntry
                     Sample.createJournalEntry Sample.new_Date Sample.ISO_text
                     [Mount; AddTag (js "c"); ReadSettles; AddTag (js "a");
                      AddTag (js "d"); DeleteTag (js "b"); PressSave]
                     (opened 0 (Number 1))))).
Proof.
  apply run_keeps_tags_distinct.
  - exact sample_stores_distinct_tags.
  - repeat constructor.
  - apply NoDup_nil_2.
Defined.

(** ** A draft with an identifier that is not updated *)

